(** * The mobile NPC of the tutorial world (tutorial_world/mob.py)

    A shallow embedding of the [Mob] typeclass: its persistent ([db]) and
    runtime ([ndb]) attributes, the ticker helper [_set_ticker], the state
    setters, the three behaviour loops and the two reaction hooks, followed
    by the properties of the behaviour engine that are checked against it.

    Numbers stored in attributes that take part in arithmetic (health,
    damage, damage resistance) are binary64 floats, as Python's [float];
    the integer defaults of the source (25, 100.0, ...) are their float
    values. Ticker intervals are integers. *)

From Stdlib Require Import ZArith Floats Lia.
From stdpp Require Import gmap strings list.

(** ** Values shared with the host engine *)

(** Database references of objects and rooms. *)
Definition dbref := nat.

(** The Python exceptions the module can run into. *)
Inductive Exn := AttributeError | TypeError | ZeroDivisionError | IndexError.

(** A message text: a literal, or [template % arg]. *)
Inductive Text :=
| Plain (s : string)
| Percent (template arg : string).

(** What the mob does to its surroundings, in the order it does it. *)
Inductive Event :=
| Msg (target : dbref) (text : Text)
| MsgContents (room : dbref) (text : Text) (exclude : list dbref)
| TickerRemove (interval : Z) (hook : string)
| TickerAdd (interval : Z) (hook : string)
| LogErr (text : string).

(** ** The mob's attributes *)

(** Attributes the module only reads: they are written once, by
    [at_object_creation] or by a builder. *)
Record Attributes := {
  mob_id : dbref;
  key : string;
  home : dbref;
  db_patrolling : bool;
  db_aggressive : bool;
  db_immortal : bool;
  db_hunting : bool;
  db_damage_resistance : float;
  db_patrolling_pace : Z;
  db_aggressive_pace : Z;
  db_hunting_pace : Z;
  db_death_pace : Z;
  db_desc_alive : string;
  db_desc_dead : string;
  db_full_health : option float;
  db_send_defeated_to : string;
  db_defeat_msg : string;
  db_defeat_msg_room : string;
  db_weapon_ineffective_msg : string;
  db_death_msg : string;
  db_hit_msg : string;
  db_irregular_msgs : list string;
  db_tutorial_info : string
}.

(** The whole object: the attributes above and the ones the module writes.
    An unset attribute reads as [None] (for a flag: as false). *)
Record Mob := {
  attrs :> Attributes;
  db_is_dead : bool;
  db_last_ticker_interval : option Z;
  db_last_hook_key : option string;
  db_desc : string;
  db_health : option float;
  ndb_is_patrolling : bool;
  ndb_is_attacking : bool;
  ndb_is_hunting : bool;
  ndb_is_immortal : bool;
  location : option dbref
}.

Definition set_db_is_dead (v : bool) (m : Mob) : Mob :=
  {| attrs := attrs m; db_is_dead := v;
     db_last_ticker_interval := db_last_ticker_interval m;
     db_last_hook_key := db_last_hook_key m; db_desc := db_desc m;
     db_health := db_health m; ndb_is_patrolling := ndb_is_patrolling m;
     ndb_is_attacking := ndb_is_attacking m; ndb_is_hunting := ndb_is_hunting m;
     ndb_is_immortal := ndb_is_immortal m; location := location m |}.

Definition set_db_last_ticker (interval : option Z) (hook_key : option string) (m : Mob) : Mob :=
  {| attrs := attrs m; db_is_dead := db_is_dead m;
     db_last_ticker_interval := interval;
     db_last_hook_key := hook_key; db_desc := db_desc m;
     db_health := db_health m; ndb_is_patrolling := ndb_is_patrolling m;
     ndb_is_attacking := ndb_is_attacking m; ndb_is_hunting := ndb_is_hunting m;
     ndb_is_immortal := ndb_is_immortal m; location := location m |}.

Definition set_db_desc (v : string) (m : Mob) : Mob :=
  {| attrs := attrs m; db_is_dead := db_is_dead m;
     db_last_ticker_interval := db_last_ticker_interval m;
     db_last_hook_key := db_last_hook_key m; db_desc := v;
     db_health := db_health m; ndb_is_patrolling := ndb_is_patrolling m;
     ndb_is_attacking := ndb_is_attacking m; ndb_is_hunting := ndb_is_hunting m;
     ndb_is_immortal := ndb_is_immortal m; location := location m |}.

Definition set_db_health (v : option float) (m : Mob) : Mob :=
  {| attrs := attrs m; db_is_dead := db_is_dead m;
     db_last_ticker_interval := db_last_ticker_interval m;
     db_last_hook_key := db_last_hook_key m; db_desc := db_desc m;
     db_health := v; ndb_is_patrolling := ndb_is_patrolling m;
     ndb_is_attacking := ndb_is_attacking m; ndb_is_hunting := ndb_is_hunting m;
     ndb_is_immortal := ndb_is_immortal m; location := location m |}.

Definition set_ndb_is_patrolling (v : bool) (m : Mob) : Mob :=
  {| attrs := attrs m; db_is_dead := db_is_dead m;
     db_last_ticker_interval := db_last_ticker_interval m;
     db_last_hook_key := db_last_hook_key m; db_desc := db_desc m;
     db_health := db_health m; ndb_is_patrolling := v;
     ndb_is_attacking := ndb_is_attacking m; ndb_is_hunting := ndb_is_hunting m;
     ndb_is_immortal := ndb_is_immortal m; location := location m |}.

Definition set_ndb_is_attacking (v : bool) (m : Mob) : Mob :=
  {| attrs := attrs m; db_is_dead := db_is_dead m;
     db_last_ticker_interval := db_last_ticker_interval m;
     db_last_hook_key := db_last_hook_key m; db_desc := db_desc m;
     db_health := db_health m; ndb_is_patrolling := ndb_is_patrolling m;
     ndb_is_attacking := v; ndb_is_hunting := ndb_is_hunting m;
     ndb_is_immortal := ndb_is_immortal m; location := location m |}.

Definition set_ndb_is_hunting (v : bool) (m : Mob) : Mob :=
  {| attrs := attrs m; db_is_dead := db_is_dead m;
     db_last_ticker_interval := db_last_ticker_interval m;
     db_last_hook_key := db_last_hook_key m; db_desc := db_desc m;
     db_health := db_health m; ndb_is_patrolling := ndb_is_patrolling m;
     ndb_is_attacking := ndb_is_attacking m; ndb_is_hunting := v;
     ndb_is_immortal := ndb_is_immortal m; location := location m |}.

Definition set_ndb_is_immortal (v : bool) (m : Mob) : Mob :=
  {| attrs := attrs m; db_is_dead := db_is_dead m;
     db_last_ticker_interval := db_last_ticker_interval m;
     db_last_hook_key := db_last_hook_key m; db_desc := db_desc m;
     db_health := db_health m; ndb_is_patrolling := ndb_is_patrolling m;
     ndb_is_attacking := ndb_is_attacking m; ndb_is_hunting := ndb_is_hunting m;
     ndb_is_immortal := v; location := location m |}.

Definition set_location (v : option dbref) (m : Mob) : Mob :=
  {| attrs := attrs m; db_is_dead := db_is_dead m;
     db_last_ticker_interval := db_last_ticker_interval m;
     db_last_hook_key := db_last_hook_key m; db_desc := db_desc m;
     db_health := db_health m; ndb_is_patrolling := ndb_is_patrolling m;
     ndb_is_attacking := ndb_is_attacking m; ndb_is_hunting := ndb_is_hunting m;
     ndb_is_immortal := ndb_is_immortal m; location := v |}.

(** ** The world around the mob *)

(** Another object of the game, as far as the mob looks at it. *)
Record Obj := {
  oid : dbref;
  okey : string;
  has_account : bool;
  is_superuser : bool;
  obj_health : option float;
  obj_location : option dbref
}.

(** An exit of a room; [access_traverse] is [exi.access(self, "traverse")]. *)
Record Exit := {
  access_traverse : bool;
  destination : dbref
}.

Record World := {
  objects : list Obj;
  exits : dbref -> list Exit;
  search_object : string -> list dbref
}.

(** The weapon handed to [at_hit]; only [weapon.db.magic] is read. *)
Record Weapon := { db_magic : bool }.

(** The random draws of one tick: whether [random.random() < 0.02], and the
    indices behind the two [random.choice] calls. *)
Record Dice := {
  random_low : bool;
  pick_msg : nat;
  pick : nat
}.

(** ** State and the monad of the methods *)

(** Modelled from the spec: the host engine's [TICKER_HANDLER] is the
    Scheduler of the design, a store of repeating timers "keyed by
    (interval, agent, hook)"; [tickers] holds this mob's keys, [add]
    installs a key and [remove] drops it. *)
Record St := {
  mob : Mob;
  world : World;
  tickers : gset (Z * string);
  log : list Event
}.

Definition with_mob (m : Mob) (s : St) : St :=
  {| mob := m; world := world s; tickers := tickers s; log := log s |}.

Definition with_world (w : World) (s : St) : St :=
  {| mob := mob s; world := w; tickers := tickers s; log := log s |}.

Definition with_tickers (t : gset (Z * string)) (s : St) : St :=
  {| mob := mob s; world := world s; tickers := t; log := log s |}.

Definition with_log (l : list Event) (s : St) : St :=
  {| mob := mob s; world := world s; tickers := tickers s; log := l |}.

(** A method either returns or raises; both leave a state behind. *)
Inductive Res (A : Type) :=
| Ok (a : A) (s : St)
| Raise (e : Exn) (s : St).
Arguments Ok {A} a s.
Arguments Raise {A} e s.

Definition M (A : Type) : Type := St -> Res A.

Definition ret {A : Type} (a : A) : M A := fun s => Ok a s.

Definition bind {A B : Type} (c : M A) (f : A -> M B) : M B := fun s =>
  match c s with
  | Ok a s' => f a s'
  | Raise e s' => Raise e s'
  end.

Declare Scope mob_scope.
Notation "x ← c ; k" := (bind c (fun x => k))
  (at level 20, c at level 100, k at level 200, only parsing) : mob_scope.
Notation "c ;; k" := (bind c (fun _ => k))
  (at level 100, k at level 200, only parsing, right associativity) : mob_scope.
Open Scope mob_scope.

Definition after {A : Type} (r : Res A) : St :=
  match r with
  | Ok _ s => s
  | Raise _ s => s
  end.

Definition raise {A : Type} (e : Exn) : M A := fun s => Raise e s.

Definition get_mob : M Mob := fun s => Ok (mob s) s.

Definition get_world : M World := fun s => Ok (world s) s.

Definition modify (f : Mob -> Mob) : M unit := fun s => Ok tt (with_mob (f (mob s)) s).

Definition modify_world (f : World -> World) : M unit :=
  fun s => Ok tt (with_world (f (world s)) s).

Definition emit (e : Event) : M unit := fun s => Ok tt (with_log (log s ++ [e]) s).

(** [obj.msg(text)] *)
Definition msg (target : dbref) (text : Text) : M unit := emit (Msg target text).

(** [room.msg_contents(text, exclude=...)] *)
Definition msg_contents (room : dbref) (text : Text) (exclude : list dbref) : M unit :=
  emit (MsgContents room text exclude).

(** [logger.log_err(text)] *)
Definition log_err (text : string) : M unit := emit (LogErr text).

(** [self.location], for a use that dereferences it. *)
Definition self_location : M dbref :=
  m ← get_mob;
  match location m with
  | Some l => ret l
  | None => raise AttributeError
  end.

(** [random.choice(seq)] with the drawn index. *)
Definition random_choice {A : Type} (i : nat) (seq : list A) : M A :=
  match seq !! (i mod length seq) with
  | Some x => ret x
  | None => raise IndexError
  end.

(** [TICKER_HANDLER.remove(interval, callback, idstring)] *)
Definition ticker_remove (interval : Z) (hook : string) : M unit := fun s =>
  Ok tt (with_log (log s ++ [TickerRemove interval hook])
           (with_tickers (tickers s ∖ {[ (interval, hook) ]}) s)).

(** [TICKER_HANDLER.add(interval, callback, idstring)] *)
Definition ticker_add (interval : Z) (hook : string) : M unit := fun s =>
  Ok tt (with_log (log s ++ [TickerAdd interval hook])
           (with_tickers (tickers s ∪ {[ (interval, hook) ]}) s)).

(** Modelled from the spec: the host engine's [move_to] is the world
    interface's [moveAgent(agent, destinationLocation)]. *)
Definition move_to (dest : dbref) : M unit := modify (set_location (Some dest)).

Definition obj_set_location (v : option dbref) (o : Obj) : Obj :=
  {| oid := oid o; okey := okey o; has_account := has_account o;
     is_superuser := is_superuser o; obj_health := obj_health o;
     obj_location := v |}.

Definition with_objects (l : list Obj) (w : World) : World :=
  {| objects := l; exits := exits w; search_object := search_object w |}.

(** [target.move_to(dest, quiet=True)] for another object of the world. *)
Definition obj_move_to (target dest : dbref) : M unit :=
  modify_world (fun w =>
    with_objects
      (map (fun o => if (oid o =? target)%nat then obj_set_location (Some dest) o else o)
           (objects w)) w).

(** Looking an object up again after a command has run. *)
Definition lookup_obj (w : World) (target : dbref) : option Obj :=
  List.find (fun o => (oid o =? target)%nat) (objects w).

(** ** Creation *)

(** [Mob.at_object_creation], for an object the engine has just created
    under [key] with the given reference, location and home. No [ndb]
    attribute is set yet, and neither are [db.hunting] and
    [db.last_hook_key]. *)
Definition at_object_creation (id : dbref) (name : string)
    (loc : option dbref) (hm : dbref) : Mob :=
  {| attrs :=
       {| mob_id := id; key := name; home := hm;
          db_patrolling := true;
          db_aggressive := true;
          db_immortal := false;
          db_hunting := false;
          db_damage_resistance := 100%float;
          db_patrolling_pace := 6%Z;
          db_aggressive_pace := 2%Z;
          db_hunting_pace := 1%Z;
          db_death_pace := 90%Z;
          db_desc_alive :=
            "A hovering |csecurity drone|n hums here, its optics glowing faint blue.";
          db_desc_dead := "A heap of burnt circuitry and shattered plating.";
          db_full_health := Some 25%float;
          db_send_defeated_to := "recovery_bay";
          db_defeat_msg :=
            "|rSYSTEM FAILURE:|n Your HUD flickers and fades as you collapse.";
          db_defeat_msg_room :=
            "%s’s neural link overloads and they drop to the ground.";
          db_weapon_ineffective_msg :=
            "Your weapon’s rounds spark harmlessly off reinforced plating!";
          db_death_msg :=
            name +:+ " sparks violently, collapsing into a pool of molten alloy.";
          db_hit_msg := name +:+ " jerks as bullets ricochet off its chassis!";
          db_irregular_msgs :=
            [ "The drone scans the area with a crimson beam.";
              "A low servo whine echoes from the drone.";
              "The drone repositions, whirring softly." ];
          db_tutorial_info :=
            "This is a cybernetic drone AI — it patrols, hunts, and engages intruders autonomously."
       |};
     db_is_dead := true;
     db_last_ticker_interval := None;
     db_last_hook_key := None;
     db_desc := "";
     db_health := Some 25%float;
     ndb_is_patrolling := false;
     ndb_is_attacking := false;
     ndb_is_hunting := false;
     ndb_is_immortal := false;
     location := loc |}.

(** [Mob.at_init]: restore the runtime flags after a reboot. *)
Definition at_init : M unit :=
  modify (fun m => set_ndb_is_patrolling (db_patrolling m && negb (db_is_dead m)) m) ;;
  modify (set_ndb_is_attacking false) ;;
  modify (set_ndb_is_hunting false) ;;
  modify (fun m => set_ndb_is_immortal (db_immortal m || db_is_dead m) m).

(** ** Ticker / state helpers *)

(** Python truth of an interval and of a hook name. *)
Definition truthy_interval (i : Z) : bool := negb (i =? 0)%Z.

Definition truthy_key (h : string) : bool := negb (String.eqb h "").

(** [Mob._set_ticker] *)
Definition _set_ticker (interval : option Z) (hook_key : option string)
    (stop : bool) : M unit :=
  m ← get_mob;
  let last_interval := db_last_ticker_interval m in
  let last_hook_key := db_last_hook_key m in
  match last_interval, last_hook_key with
  | Some i, Some h =>
      if truthy_interval i && truthy_key h then ticker_remove i h else ret tt
  | _, _ => ret tt
  end ;;
  modify (set_db_last_ticker interval hook_key) ;;
  match interval, hook_key with
  | Some i, Some h =>
      if negb stop && truthy_interval i && truthy_key h then ticker_add i h
      else ret tt
  | _, _ => ret tt
  end.

(** [location.contents_get(exclude=self)] *)
Definition contents_get (w : World) (room exclude : dbref) : list Obj :=
  List.filter
    (fun o => bool_decide (obj_location o = Some room) && negb (oid o =? exclude)%nat)
    (objects w).

(** A character the mob may attack. *)
Definition valid_target (obj : Obj) : bool :=
  has_account obj && negb (is_superuser obj).

(** [Mob._find_target]: the first non-superuser character in the room. *)
Definition _find_target (loc : option dbref) : M (option Obj) :=
  match loc with
  | None => raise AttributeError
  | Some room =>
      m ← get_mob;
      w ← get_world;
      let targets := List.filter valid_target (contents_get w room (mob_id m)) in
      ret (head targets)
  end.

(** ** State setters *)

(** [Mob.start_idle] *)
Definition start_idle : M unit := _set_ticker None None true.

(** [Mob.start_patrolling] *)
Definition start_patrolling : M unit :=
  m ← get_mob;
  if negb (db_patrolling m) then start_idle
  else
    _set_ticker (Some (db_patrolling_pace m)) (Some "do_patrol") false ;;
    modify (set_ndb_is_patrolling true) ;;
    modify (set_ndb_is_hunting false) ;;
    modify (set_ndb_is_attacking false) ;;
    modify (fun m => set_db_health (db_full_health m) m).

(** [Mob.start_hunting] *)
Definition start_hunting : M unit :=
  m ← get_mob;
  if negb (db_hunting m) then start_patrolling
  else
    _set_ticker (Some (db_hunting_pace m)) (Some "do_hunt") false ;;
    modify (set_ndb_is_patrolling false) ;;
    modify (set_ndb_is_hunting true) ;;
    modify (set_ndb_is_attacking false).

(** [Mob.start_attacking] *)
Definition start_attacking : M unit :=
  m ← get_mob;
  if negb (db_aggressive m) then start_hunting
  else
    _set_ticker (Some (db_aggressive_pace m)) (Some "do_attack") false ;;
    modify (set_ndb_is_patrolling false) ;;
    modify (set_ndb_is_hunting false) ;;
    modify (set_ndb_is_attacking true).

(** [Mob.set_alive] *)
Definition set_alive : M unit :=
  modify (fun m => set_db_health (db_full_health m) m) ;;
  modify (set_db_is_dead false) ;;
  modify (fun m => set_db_desc (db_desc_alive m) m) ;;
  modify (fun m => set_ndb_is_immortal (db_immortal m) m) ;;
  modify (fun m => set_ndb_is_patrolling (db_patrolling m) m) ;;
  m ← get_mob;
  match location m with
  | None => move_to (home m)
  | Some _ => ret tt
  end ;;
  if db_patrolling m then start_patrolling else ret tt.

(** [Mob.set_dead] *)
Definition set_dead : M unit :=
  modify (set_db_is_dead true) ;;
  modify (set_location None) ;;
  modify (set_ndb_is_patrolling false) ;;
  modify (set_ndb_is_attacking false) ;;
  modify (set_ndb_is_hunting false) ;;
  modify (set_ndb_is_immortal true) ;;
  m ← get_mob;
  _set_ticker (Some (db_death_pace m)) (Some "set_alive") false.

(** [CmdMobOnOff.func], once the unit has been found. *)
Definition CmdMobOnOff_func (cmdstring : string) : M unit :=
  if String.eqb cmdstring "mobon" then set_alive else set_dead.

(** ** Behaviour loops *)

(** The opening lines of every tick: now and then an ambient message. *)
Definition irregular_msg (d : Dice) : M unit :=
  m ← get_mob;
  match random_low d, db_irregular_msgs m with
  | true, _ :: _ =>
      room ← self_location;
      text ← random_choice (pick_msg d) (db_irregular_msgs m);
      msg_contents room (Plain text) []
  | _, _ => ret tt
  end.

(** The [if self.db.aggressive: target = ...] lines of the patrol and hunt
    ticks: the target found, if the mob looks for one. *)
Definition aggressive_target : M (option Obj) :=
  m ← get_mob;
  if db_aggressive m then _find_target (location m) else ret None.

(** The exits of the room the mob may traverse. *)
Definition traversable_exits : M (list Exit) :=
  room ← self_location;
  w ← get_world;
  ret (List.filter access_traverse (exits w room)).

(** [Mob.do_patrol] *)
Definition do_patrol (d : Dice) : M unit :=
  irregular_msg d ;;
  target ← aggressive_target;
  match target with
  | Some _ => start_attacking
  | None =>
      exits ← traversable_exits;
      match exits with
      | _ :: _ =>
          exit ← random_choice (pick d) exits;
          move_to (destination exit)
      | [] => m ← get_mob; move_to (home m)
      end
  end.

(** The [for exit in exits] loop of [do_hunt] and the line after it. *)
Fixpoint hunt_exits (exits : list Exit) : M unit :=
  match exits with
  | [] => start_patrolling
  | exit :: rest =>
      target ← _find_target (Some (destination exit));
      match target with
      | Some _ => move_to (destination exit)
      | None => hunt_exits rest
      end
  end.

(** [Mob.do_hunt] *)
Definition do_hunt (d : Dice) : M unit :=
  irregular_msg d ;;
  target ← aggressive_target;
  match target with
  | Some _ => start_attacking
  | None =>
      exits ← traversable_exits;
      match exits with
      | _ :: _ => hunt_exits exits
      | [] => m ← get_mob; move_to (home m)
      end
  end.

(** [Mob.at_new_arrival] *)
Definition at_new_arrival (new_character : dbref) : M unit :=
  m ← get_mob;
  if db_aggressive m && negb (ndb_is_attacking m) then start_attacking else ret tt.

(** [Mob.at_hit] *)
Definition at_hit (weapon : Weapon) (attacker : dbref) (damage : float) : M unit :=
  m ← get_mob;
  match db_health m with
  | None => msg attacker (Plain (db_weapon_ineffective_msg m))
  | Some health =>
      (if negb (ndb_is_immortal m) then
         damage ←
           (if negb (db_magic weapon) then
              if (db_damage_resistance m =? 0)%float then raise ZeroDivisionError
              else
                msg attacker (Plain (db_weapon_ineffective_msg m)) ;;
                ret (damage / db_damage_resistance m)%float
            else
              room ← self_location;
              msg_contents room (Plain (db_hit_msg m)) [] ;;
              ret damage);
         modify (set_db_health (Some (health - damage)%float))
       else ret tt) ;;
      m ← get_mob;
      match db_health m with
      | None => raise TypeError
      | Some health =>
          if (health <=? 0)%float then
            msg attacker (Plain (db_death_msg m)) ;;
            set_dead
          else if db_aggressive m && negb (ndb_is_attacking m) then start_attacking
          else ret tt
      end
  end.

Section Commands.

(** The attack commands live in the tutorial's object module; what running
    one does to the other objects of the world is a parameter here. *)
Variable execute_cmd : string -> World -> World.

(** [target.db.health], read after the command has run. *)
Definition target_health (target : dbref) : M float :=
  w ← get_world;
  match from_option obj_health None (lookup_obj w target) with
  | Some h => ret h
  | None => raise TypeError
  end.

(** [Mob.do_attack] *)
Definition do_attack (d : Dice) : M unit :=
  irregular_msg d ;;
  m ← get_mob;
  target ← _find_target (location m);
  match target with
  | None => start_hunting
  | Some target =>
      attack_cmd ← random_choice (pick d) ["burst"; "slice"; "slash"; "pierce"; "blast"];
      modify_world (execute_cmd (attack_cmd +:+ " " +:+ okey target)) ;;
      health ← target_health (oid target);
      if (health <=? 0)%float then
        m ← get_mob;
        msg (oid target) (Plain (db_defeat_msg m)) ;;
        room ← self_location;
        msg_contents room (Percent (db_defeat_msg_room m) (okey target)) [oid target] ;;
        w ← get_world;
        match search_object w (db_send_defeated_to m) with
        | send_defeated_to :: _ => obj_move_to (oid target) send_defeated_to
        | [] => log_err ("Mob: send_defeated_to not found: " +:+ db_send_defeated_to m)
        end
      else ret tt
  end.

(** ** Everything the engine asks of a mob

    The reboot hook, the two ends of the admin command, the three ticker
    callbacks and the two reaction hooks. *)

Inductive Call :=
| call_at_init
| call_set_alive
| call_set_dead
| call_do_patrol (d : Dice)
| call_do_hunt (d : Dice)
| call_do_attack (d : Dice)
| call_at_hit (weapon : Weapon) (attacker : dbref) (damage : float)
| call_at_new_arrival (new_character : dbref).

Definition run (c : Call) : M unit :=
  match c with
  | call_at_init => at_init
  | call_set_alive => set_alive
  | call_set_dead => set_dead
  | call_do_patrol d => do_patrol d
  | call_do_hunt d => do_hunt d
  | call_do_attack d => do_attack d
  | call_at_hit weapon attacker damage => at_hit weapon attacker damage
  | call_at_new_arrival c => at_new_arrival c
  end.

(** The states a mob can be in, counting from [s0]: any sequence of
    permitted calls, with the rest of the world changing in between. *)
Inductive reachable (permitted : Call -> Prop) (s0 : St) : St -> Prop :=
| reach_start : reachable permitted s0 s0
| reach_call (s : St) (c : Call) :
    reachable permitted s0 s -> permitted c ->
    reachable permitted s0 (after (run c s))
| reach_world (s : St) (w : World) :
    reachable permitted s0 s -> reachable permitted s0 (with_world w s).

End Commands.

(** [run] is a dispatch table: conversion goes through it first. *)
Strategy expand [run].

(** Every call but a reboot. *)
Definition no_reboot (c : Call) : Prop := c <> call_at_init.

(** Every call. *)
Definition any_call (c : Call) : Prop := True.

(** ** The states of the behaviour engine *)

Inductive State := Dormant | Patrolling | Hunting | Attacking.

(** The state the runtime flags stand for; [Dormant] is the mob with no
    behaviour flag set, dead or idle. *)
Definition state_of (m : Mob) : State :=
  if ndb_is_attacking m then Attacking
  else if ndb_is_hunting m then Hunting
  else if ndb_is_patrolling m then Patrolling
  else Dormant.

(** The pace and the tick of a state; none for [Dormant]. *)
Definition pace_of (m : Mob) (st : State) : option Z :=
  match st with
  | Dormant => None
  | Patrolling => Some (db_patrolling_pace m)
  | Hunting => Some (db_hunting_pace m)
  | Attacking => Some (db_aggressive_pace m)
  end.

Definition hook_of (st : State) : string :=
  match st with
  | Dormant => "set_alive"
  | Patrolling => "do_patrol"
  | Hunting => "do_hunt"
  | Attacking => "do_attack"
  end.

(** The timer that goes with the mob's state: the state's tick at the
    state's pace, and for a dormant mob the reboot at [death_pace]. *)
Definition timer_of (m : Mob) : Z * string :=
  (default (db_death_pace m) (pace_of m (state_of m)), hook_of (state_of m)).

(** The three tick paces are not zero (a zero interval installs no timer). *)
Definition paces_nonzero (m : Mob) : Prop :=
  db_patrolling_pace m <> 0%Z /\ db_hunting_pace m <> 0%Z /\ db_aggressive_pace m <> 0%Z.

(** A mob that has been set up and not started: no flag, no timer. *)
Definition not_started (s : St) : Prop :=
  state_of (mob s) = Dormant /\ tickers s = ∅.

(** The events a call adds to the log. *)
Definition new_events (s s' : St) : list Event := drop (length (log s)) (log s').

(** The events of one [_set_ticker] call. *)
Definition ticker_event (e : Event) : Prop :=
  match e with
  | TickerRemove _ _ | TickerAdd _ _ => True
  | _ => False
  end.

(** The valid targets in a room, in the order [_find_target] sees them. *)
Definition targets_in (s : St) (room : dbref) : list Obj :=
  List.filter valid_target (contents_get (world s) room (mob_id (mob s))).

(** The verbs [do_attack] draws from. *)
Definition attack_verbs : list string := ["burst"; "slice"; "slash"; "pierce"; "blast"].

(** ** What one [_set_ticker] call does, in closed form *)

(** The timer [_set_ticker] cancels: the one it remembers, if any. *)
Definition remembered_timer (m : Mob) : option (Z * string) :=
  match db_last_ticker_interval m, db_last_hook_key m with
  | Some i, Some h => if truthy_interval i && truthy_key h then Some (i, h) else None
  | _, _ => None
  end.

(** The timer [_set_ticker] installs, if any. *)
Definition requested_timer (interval : option Z) (hook_key : option string)
    (stop : bool) : option (Z * string) :=
  match interval, hook_key with
  | Some i, Some h =>
      if negb stop && truthy_interval i && truthy_key h then Some (i, h) else None
  | _, _ => None
  end.

Definition timer_set (t : option (Z * string)) : gset (Z * string) :=
  match t with
  | Some k => {[ k ]}
  | None => ∅
  end.

Definition removal_events (t : option (Z * string)) : list Event :=
  match t with
  | Some (i, h) => [TickerRemove i h]
  | None => []
  end.

Definition install_events (t : option (Z * string)) : list Event :=
  match t with
  | Some (i, h) => [TickerAdd i h]
  | None => []
  end.

(** The six assignments at the head of [set_dead]. *)
Definition shut_down (m : Mob) : Mob :=
  set_ndb_is_immortal true
    (set_ndb_is_hunting false
       (set_ndb_is_attacking false
          (set_ndb_is_patrolling false
             (set_location None (set_db_is_dead true m))))).

Definition set_ticker_state (interval : option Z) (hook_key : option string)
    (stop : bool) (s : St) : St :=
  {| mob := set_db_last_ticker interval hook_key (mob s);
     world := world s;
     tickers := tickers s ∖ timer_set (remembered_timer (mob s))
                ∪ timer_set (requested_timer interval hook_key stop);
     log := (log s ++ removal_events (remembered_timer (mob s)))
              ++ install_events (requested_timer interval hook_key stop) |}.

(** ** Invariants *)

(** "Replace, don't layer": no timer is registered but the one
    [_set_ticker] remembers and will cancel first. *)
Definition timers_remembered (s : St) : Prop :=
  tickers s ⊆ timer_set (remembered_timer (mob s)).

(** The timer discipline of the state setters: whatever is registered is
    remembered, and it is the timer that goes with the state; a
    patrol-capable mob that is not dormant has its timer. *)
Definition timer_inv (s : St) : Prop :=
  paces_nonzero (mob s) /\
  timers_remembered s /\
  (forall k, k ∈ tickers s -> k = timer_of (mob s)) /\
  (ndb_is_patrolling (mob s) = true -> db_patrolling (mob s) = true) /\
  (db_patrolling (mob s) = true -> state_of (mob s) <> Dormant -> tickers s <> ∅).

(** A dead mob is immortal. *)
Definition dead_immortal (s : St) : Prop :=
  db_is_dead (mob s) = true -> ndb_is_immortal (mob s) = true.

(** A state predicate that survives whatever state a computation leaves,
    returning or raising. *)
Definition preserves {A : Type} (P : St -> Prop) (c : M A) : Prop :=
  forall s, P s -> P (after (c s)).

(** ** The claims that fail, as they are stated *)

(** Dormant with no timer, or not dormant with exactly one timer at the
    pace of the state. *)
Definition one_timer_or_dormant (s : St) : Prop :=
  (state_of (mob s) = Dormant /\ tickers s = ∅) \/
  (state_of (mob s) <> Dormant /\
   exists i h, tickers s = {[ (i, h) ]} /\ pace_of (mob s) (state_of (mob s)) = Some i).

(** Deactivation leaves the mob dormant, without health and without
    location. *)
Definition deactivation_clears (s : St) : Prop :=
  state_of (mob (after (set_dead s))) = Dormant /\
  db_health (mob (after (set_dead s))) = None /\
  location (mob (after (set_dead s))) = None.

(** A fatal hit with a magic weapon: dormant, the attacker told, and a
    broadcast to the room that leaves out the defeated mob. *)
Definition fatal_hit_broadcast (s : St) (weapon : Weapon) (attacker : dbref)
    (damage : float) : Prop :=
  let s' := after (at_hit weapon attacker damage s) in
  state_of (mob s') = Dormant /\
  Msg attacker (Plain (db_death_msg (mob s))) ∈ new_events s s' /\
  exists room text exclude,
    MsgContents room text exclude ∈ new_events s s' /\ mob_id (mob s) ∈ exclude.

(** A tick on a dormant mob returns without a change, and a hit on it
    starts no second death transition. *)
Definition dormant_is_inert (execute_cmd : string -> World -> World) (s : St)
    (d : Dice) (weapon : Weapon) (attacker : dbref) (damage : float) : Prop :=
  state_of (mob s) = Dormant ->
  (do_patrol d s = Ok tt s /\ do_hunt d s = Ok tt s /\
   do_attack execute_cmd d s = Ok tt s) /\
  forall e, e ∈ new_events s (after (at_hit weapon attacker damage s)) ->
            ~ ticker_event e.

(** Whenever the mob is dead it is immortal, and a hit leaves its health
    as it is. *)
Definition dead_means_immortal (s : St) (weapon : Weapon) (attacker : dbref)
    (damage : float) : Prop :=
  db_is_dead (mob s) = true ->
  ndb_is_immortal (mob s) = true /\
  db_health (mob (after (at_hit weapon attacker damage s))) = db_health (mob s).

(** The first traversable exit that leads to a valid target. *)
Definition first_exit_with_target (s : St) (room : dbref) : option Exit :=
  List.find (fun e => bool_decide (targets_in s (destination e) <> []))
    (List.filter access_traverse (exits (world s) room)).

(** A hunt tick without a target at hand: into the first exit with a
    target, else back to patrolling, and home when there is no exit. *)
Definition hunt_falls_back_to_patrol (s : St) (d : Dice) (room : dbref) : Prop :=
  location (mob s) = Some room -> targets_in s room = [] ->
  let s' := after (do_hunt d s) in
  match List.filter access_traverse (exits (world s) room) with
  | [] => location (mob s') = Some (home (mob s))
  | _ :: _ =>
      match first_exit_with_target s room with
      | Some e => location (mob s') = Some (destination e)
      | None => state_of (mob s') = Patrolling
      end
  end.

(** Deactivating a dormant mob changes nothing and cancels no timer. *)
Definition deactivation_is_noop (s : St) : Prop :=
  state_of (mob s) = Dormant ->
  mob (after (set_dead s)) = mob s /\
  tickers (after (set_dead s)) = tickers s /\
  forall i h, TickerRemove i h ∉ new_events s (after (set_dead s)).

(** ** Facts on binary64 numbers *)

(** A binary64 number above zero. *)
Definition sf_positive (x : spec_float) : bool :=
  match x with
  | S754_finite false _ _ | S754_infinity false => true
  | _ => false
  end.

(** ** A small world to run the mob in *)

(** A character in room 1. *)
Definition intruder : Obj :=
  {| oid := 7; okey := "Char"; has_account := true; is_superuser := false;
     obj_health := Some 20%float; obj_location := Some 1 |}.

(** Room 1 has one exit, to room 3; the name of the recovery bay resolves
    to nothing. *)
Definition arena : World :=
  {| objects := [intruder];
     exits := fun room =>
       if (room =? 1)%nat then [{| access_traverse := true; destination := 3 |}]
       else [];
     search_object := fun _ => [] |}.

(** The drone of the tests, created in room 1 with room 2 as its home. *)
Definition drone : Mob := at_object_creation 5 "drone" (Some 1) 2.

Definition created : St :=
  {| mob := drone; world := arena; tickers := ∅; log := [] |}.

(** The drone switched on, and switched off again. *)
Definition switched_on : St := after (set_alive created).

Definition switched_off : St := after (set_dead switched_on).

(** The drone shot down with a magic weapon: dead, at health -5. *)
Definition shot_down : St := after (at_hit {| db_magic := true |} 7 30%float switched_on).

Definition no_dice : Dice := {| random_low := false; pick_msg := 0; pick := 0 |}.

(** The same room with nobody in it. *)
Definition empty_arena : World := with_objects [] arena.

(** A builder's [@set mob/patrolling] and [@set mob/hunting]. *)
Definition with_flags (patrolling hunting : bool) (m : Mob) : Mob :=
  {| attrs :=
       {| mob_id := mob_id m; key := key m; home := home m;
          db_patrolling := patrolling;
          db_aggressive := db_aggressive m;
          db_immortal := db_immortal m;
          db_hunting := hunting;
          db_damage_resistance := db_damage_resistance m;
          db_patrolling_pace := db_patrolling_pace m;
          db_aggressive_pace := db_aggressive_pace m;
          db_hunting_pace := db_hunting_pace m;
          db_death_pace := db_death_pace m;
          db_desc_alive := db_desc_alive m;
          db_desc_dead := db_desc_dead m;
          db_full_health := db_full_health m;
          db_send_defeated_to := db_send_defeated_to m;
          db_defeat_msg := db_defeat_msg m;
          db_defeat_msg_room := db_defeat_msg_room m;
          db_weapon_ineffective_msg := db_weapon_ineffective_msg m;
          db_death_msg := db_death_msg m;
          db_hit_msg := db_hit_msg m;
          db_irregular_msgs := db_irregular_msgs m;
          db_tutorial_info := db_tutorial_info m |};
     db_is_dead := db_is_dead m;
     db_last_ticker_interval := db_last_ticker_interval m;
     db_last_hook_key := db_last_hook_key m;
     db_desc := db_desc m;
     db_health := db_health m;
     ndb_is_patrolling := ndb_is_patrolling m;
     ndb_is_attacking := ndb_is_attacking m;
     ndb_is_hunting := ndb_is_hunting m;
     ndb_is_immortal := ndb_is_immortal m;
     location := location m |}.

(** A drone that hunts but does not patrol, alone in room 1: switched on,
    provoked by an arrival, and sent hunting by an attack tick that finds
    nobody. *)
Definition pursuer_created : St :=
  {| mob := with_flags false true drone; world := empty_arena; tickers := ∅; log := [] |}.

Definition pursuer : St :=
  after (do_attack (fun _ w => w) no_dice
           (after (at_new_arrival 7 (after (set_alive pursuer_created))))).

(** An attack command that does nothing, and one that knocks everybody out. *)
Definition cmd_misses (cmd : string) (w : World) : World := w.

Definition cmd_knocks_out (cmd : string) (w : World) : World :=
  with_objects
    (map (fun o =>
            {| oid := oid o; okey := okey o; has_account := has_account o;
               is_superuser := is_superuser o; obj_health := Some 0%float;
               obj_location := obj_location o |})
         (objects w)) w.

Definition blade : Weapon := {| db_magic := false |}.

Definition plasma : Weapon := {| db_magic := true |}.

(** ** Further notions *)

(** The runtime flags stay within what the mob is allowed to do. *)
Definition capabilities_respected (s : St) : Prop :=
  (ndb_is_patrolling (mob s) = true -> db_patrolling (mob s) = true) /\
  (ndb_is_hunting (mob s) = true -> db_hunting (mob s) = true) /\
  (ndb_is_attacking (mob s) = true -> db_aggressive (mob s) = true).

(** What [_find_target] looks for in a room: an object that stands there, is
    not the mob itself, is a character and is no superuser. *)
Definition seen_as_target (s : St) (room : dbref) (o : Obj) : bool :=
  bool_decide (obj_location o = Some room)
  && negb (oid o =? mob_id (mob s))%nat
  && valid_target o.

(** The drone rebooted while it was switched off. *)
Definition rebooted : St := after (at_init switched_off).
(** The arena with a recovery bay, room 9, that the name resolves to. *)
Definition arena_with_bay : World :=
  {| objects := objects arena; exits := exits arena;
     search_object := fun name =>
       if String.eqb name "recovery_bay" then [9] else [] |}.
(** The world is [w]. *)
Definition world_is (w : World) (s : St) : Prop := world s = w.

(** A call that is not an attack tick. *)
Definition not_an_attack (c : Call) : Prop :=
  match c with
  | call_do_attack _ => False
  | _ => True
  end.

(** * Properties *)

(** ** The monad *)

Lemma bind_ok {A B : Type} (c : M A) (f : A -> M B) (s s' : St) (a : A) :
  c s = Ok a s' -> bind c f s = f a s'.
Proof. unfold bind. intros ->. reflexivity. Qed.

Lemma bind_raise {A B : Type} (c : M A) (f : A -> M B) (s s' : St) (e : Exn) :
  c s = Raise e s' -> bind c f s = Raise e s'.
Proof. unfold bind. intros ->. reflexivity. Qed.

Lemma with_mob_id (s : St) : with_mob (mob s) s = s.
Proof. destruct s; reflexivity. Qed.

Lemma with_world_id (s : St) : with_world (world s) s = s.
Proof. destruct s; reflexivity. Qed.

(** [random.choice] of a list that is not empty returns. *)
Lemma random_choice_ok {A : Type} (i : nat) (x : A) (seq : list A) (s : St) :
  exists y, (x :: seq) !! (i mod length (x :: seq)) = Some y /\
            random_choice i (x :: seq) s = Ok y s.
Proof.
  unfold random_choice.
  destruct (lookup_lt_is_Some_2 (x :: seq) (i mod length (x :: seq))) as [y Hy].
  { apply Nat.mod_upper_bound. simpl. lia. }
  exists y. rewrite Hy. split; reflexivity.
Qed.

(** ** [_set_ticker] *)

Lemma _set_ticker_eq (interval : option Z) (hook_key : option string)
    (stop : bool) (s : St) :
  _set_ticker interval hook_key stop s = Ok tt (set_ticker_state interval hook_key stop s).
Proof.
  unfold _set_ticker, set_ticker_state, remembered_timer, requested_timer, bind,
    get_mob, modify, ret, ticker_remove, ticker_add, with_mob, with_log, with_tickers.
  destruct s as [m w t l]. simpl.
  destruct (db_last_ticker_interval m) as [i |], (db_last_hook_key m) as [h |]; simpl;
    try destruct (truthy_interval i && truthy_key h); simpl;
    destruct interval as [i' |], hook_key as [h' |]; simpl;
    try destruct (negb stop && truthy_interval i' && truthy_key h'); simpl;
    rewrite ?app_nil_r, ?union_empty_r_L, ?difference_empty_L; reflexivity.
Qed.

(** ** Preservation through the monad *)

Lemma preserves_bind {A B : Type} (P : St -> Prop) (c : M A) (f : A -> M B) :
  preserves P c -> (forall a, preserves P (f a)) -> preserves P (bind c f).
Proof.
  intros Hc Hf s HP. unfold bind. specialize (Hc s HP).
  destruct (c s) as [a s' | e s']; simpl in Hc; [apply Hf, Hc | exact Hc].
Qed.

Lemma preserves_ret {A : Type} (P : St -> Prop) (a : A) : preserves P (ret a).
Proof. intros s HP. exact HP. Qed.

Lemma preserves_raise {A : Type} (P : St -> Prop) (e : Exn) : preserves P (@raise A e).
Proof. intros s HP. exact HP. Qed.

Lemma preserves_get_mob (P : St -> Prop) : preserves P get_mob.
Proof. intros s HP. exact HP. Qed.

Lemma preserves_get_world (P : St -> Prop) : preserves P get_world.
Proof. intros s HP. exact HP. Qed.

Lemma preserves_random_choice {A : Type} (P : St -> Prop) (i : nat) (seq : list A) :
  preserves P (random_choice i seq).
Proof. intros s HP. unfold random_choice. destruct (seq !! _); exact HP. Qed.

Lemma preserves__find_target (P : St -> Prop) (loc : option dbref) :
  preserves P (_find_target loc).
Proof. intros s HP. destruct loc; exact HP. Qed.

Create HintDb preserve.

#[export] Hint Resolve preserves_ret preserves_raise preserves_get_mob
  preserves_get_world preserves_random_choice preserves__find_target : preserve.

(** One step of a preservation proof: split a bind, branch on what the code
    branches on, or close a leaf from the hints. *)
Ltac preserve_step :=
  match goal with
  | |- preserves _ (bind _ _) => apply preserves_bind; [| intros ?]
  | |- preserves _ (match ?x with _ => _ end) => destruct x
  | |- preserves _ _ => solve [auto with preserve]
  end.

Ltac preserve := repeat preserve_step.

Lemma preserves_self_location (P : St -> Prop) : preserves P self_location.
Proof. unfold self_location. preserve. Qed.

Lemma preserves_aggressive_target (P : St -> Prop) : preserves P aggressive_target.
Proof. unfold aggressive_target. preserve. Qed.

#[export] Hint Resolve preserves_self_location preserves_aggressive_target : preserve.

Lemma preserves_traversable_exits (P : St -> Prop) : preserves P traversable_exits.
Proof. unfold traversable_exits. preserve. Qed.

Lemma preserves_target_health (P : St -> Prop) (target : dbref) :
  preserves P (target_health target).
Proof. unfold target_health. preserve. Qed.

#[export] Hint Resolve preserves_traversable_exits preserves_target_health : preserve.

(** A predicate that does not look at the world, the log, the location or
    the health, and that the state setters preserve, survives every tick
    and hook. *)
Section Frame.

Variable execute_cmd : string -> World -> World.
Variable P : St -> Prop.

Hypothesis P_world : forall f, preserves P (modify_world f).
Hypothesis P_emit : forall e, preserves P (emit e).
Hypothesis P_location : forall v, preserves P (modify (set_location v)).
Hypothesis P_health : forall v, preserves P (modify (set_db_health v)).
Hypothesis P_patrolling : preserves P start_patrolling.
Hypothesis P_hunting : preserves P start_hunting.
Hypothesis P_attacking : preserves P start_attacking.
Hypothesis P_alive : preserves P set_alive.
Hypothesis P_dead : preserves P set_dead.

Local Hint Resolve P_world P_emit P_location P_health P_patrolling
  P_hunting P_attacking P_alive P_dead : preserve.

Lemma preserves_msg (target : dbref) (text : Text) : preserves P (msg target text).
Proof. apply P_emit. Qed.

Lemma preserves_msg_contents (room : dbref) (text : Text) (exclude : list dbref) :
  preserves P (msg_contents room text exclude).
Proof. apply P_emit. Qed.

Lemma preserves_log_err (text : string) : preserves P (log_err text).
Proof. apply P_emit. Qed.

Lemma preserves_move_to (dest : dbref) : preserves P (move_to dest).
Proof. apply P_location. Qed.

Lemma preserves_obj_move_to (target dest : dbref) : preserves P (obj_move_to target dest).
Proof. apply P_world. Qed.

Local Hint Resolve preserves_msg preserves_msg_contents preserves_log_err
  preserves_move_to preserves_obj_move_to : preserve.

Lemma preserves_irregular_msg (d : Dice) : preserves P (irregular_msg d).
Proof. unfold irregular_msg. preserve. Qed.

Local Hint Resolve preserves_irregular_msg : preserve.

Lemma preserves_do_patrol (d : Dice) : preserves P (do_patrol d).
Proof. unfold do_patrol. preserve. Qed.

Lemma preserves_hunt_exits (exits : list Exit) : preserves P (hunt_exits exits).
Proof.
  induction exits as [| exit rest IH]; simpl; [apply P_patrolling |].
  preserve.
Qed.

Local Hint Resolve preserves_hunt_exits : preserve.

Lemma preserves_do_hunt (d : Dice) : preserves P (do_hunt d).
Proof. unfold do_hunt. preserve. Qed.

Lemma preserves_do_attack (d : Dice) : preserves P (do_attack execute_cmd d).
Proof. unfold do_attack. preserve. Qed.

Lemma preserves_at_new_arrival (c : dbref) : preserves P (at_new_arrival c).
Proof. unfold at_new_arrival. preserve. Qed.

Lemma preserves_at_hit (weapon : Weapon) (attacker : dbref) (damage : float) :
  preserves P (at_hit weapon attacker damage).
Proof. unfold at_hit. preserve. Qed.

(** Every call but a reboot. *)
Lemma preserves_run (c : Call) : no_reboot c -> preserves P (run execute_cmd c).
Proof.
  intros Hc. destruct c; simpl; auto with preserve.
  - contradiction Hc; reflexivity.
  - apply preserves_do_patrol.
  - apply preserves_do_hunt.
  - apply preserves_do_attack.
  - apply preserves_at_hit.
  - apply preserves_at_new_arrival.
Qed.

(** The predicate holds wherever the mob gets without a reboot. *)
Lemma reachable_preserves (s0 s : St) :
  P s0 -> reachable execute_cmd no_reboot s0 s -> P s.
Proof.
  intros H0 Hr. induction Hr as [| s c Hr IH Hc | s w Hr IH].
  - exact H0.
  - apply preserves_run; assumption.
  - apply (P_world (fun _ => w) s IH).
Qed.

End Frame.

(** ** The state setters in closed form *)

Lemma start_idle_eq (s : St) :
  start_idle s = Ok tt (set_ticker_state None None true s).
Proof. apply _set_ticker_eq. Qed.

Lemma start_patrolling_eq (s : St) :
  start_patrolling s =
  Ok tt
    (if db_patrolling (mob s) then
       let s1 := set_ticker_state (Some (db_patrolling_pace (mob s)))
                   (Some "do_patrol") false s in
       with_mob
         (set_db_health (db_full_health (mob s))
            (set_ndb_is_attacking false
               (set_ndb_is_hunting false (set_ndb_is_patrolling true (mob s1))))) s1
     else set_ticker_state None None true s).
Proof.
  unfold start_patrolling, bind, get_mob.
  destruct (db_patrolling (mob s)); simpl; [| apply start_idle_eq].
  rewrite _set_ticker_eq. reflexivity.
Qed.

Lemma start_hunting_eq (s : St) :
  start_hunting s =
  if db_hunting (mob s) then
    Ok tt
      (let s1 := set_ticker_state (Some (db_hunting_pace (mob s)))
                   (Some "do_hunt") false s in
       with_mob
         (set_ndb_is_attacking false
            (set_ndb_is_hunting true (set_ndb_is_patrolling false (mob s1)))) s1)
  else start_patrolling s.
Proof.
  unfold start_hunting, bind, get_mob.
  destruct (db_hunting (mob s)); simpl; [| reflexivity].
  rewrite _set_ticker_eq. reflexivity.
Qed.

Lemma start_attacking_eq (s : St) :
  start_attacking s =
  if db_aggressive (mob s) then
    Ok tt
      (let s1 := set_ticker_state (Some (db_aggressive_pace (mob s)))
                   (Some "do_attack") false s in
       with_mob
         (set_ndb_is_attacking true
            (set_ndb_is_hunting false (set_ndb_is_patrolling false (mob s1)))) s1)
  else start_hunting s.
Proof.
  unfold start_attacking, bind, get_mob.
  destruct (db_aggressive (mob s)); simpl; [| reflexivity].
  rewrite _set_ticker_eq. reflexivity.
Qed.

Lemma set_dead_eq (s : St) :
  set_dead s =
  Ok tt
    (set_ticker_state (Some (db_death_pace (mob s))) (Some "set_alive") false
       (with_mob (shut_down (mob s)) s)).
Proof.
  unfold set_dead, bind, modify, get_mob. simpl.
  rewrite _set_ticker_eq. reflexivity.
Qed.

Lemma set_alive_eq (s : St) :
  set_alive s =
  let s1 :=
    with_mob
      (set_location (Some (default (home (mob s)) (location (mob s))))
         (set_ndb_is_patrolling (db_patrolling (mob s))
            (set_ndb_is_immortal (db_immortal (mob s))
               (set_db_desc (db_desc_alive (mob s))
                  (set_db_is_dead false
                     (set_db_health (db_full_health (mob s)) (mob s))))))) s in
  if db_patrolling (mob s) then start_patrolling s1 else Ok tt s1.
Proof.
  unfold set_alive, bind, modify, get_mob, move_to, ret.
  destruct s as [m w t l], m as [a dead li lh desc hp p at_ hu im [room |]]; simpl;
    destruct (db_patrolling a); reflexivity.
Qed.

(** The state setters always return. *)
Lemma start_patrolling_ok (s : St) :
  start_patrolling s = Ok tt (after (start_patrolling s)).
Proof. rewrite start_patrolling_eq. reflexivity. Qed.

Lemma start_hunting_ok (s : St) : start_hunting s = Ok tt (after (start_hunting s)).
Proof.
  rewrite start_hunting_eq. destruct (db_hunting (mob s));
    [reflexivity | apply start_patrolling_ok].
Qed.

Lemma start_attacking_ok (s : St) :
  start_attacking s = Ok tt (after (start_attacking s)).
Proof.
  rewrite start_attacking_eq. destruct (db_aggressive (mob s));
    [reflexivity | apply start_hunting_ok].
Qed.

Lemma set_alive_ok (s : St) : set_alive s = Ok tt (after (set_alive s)).
Proof.
  rewrite set_alive_eq. cbv zeta. destruct (db_patrolling (mob s));
    [apply start_patrolling_ok | reflexivity].
Qed.

Lemma set_dead_ok (s : St) : set_dead s = Ok tt (after (set_dead s)).
Proof. rewrite set_dead_eq. reflexivity. Qed.

(** ** Replace, don't layer *)

Lemma requested_is_remembered (interval : option Z) (hook_key : option string)
    (stop : bool) (m : Mob) :
  timer_set (requested_timer interval hook_key stop)
    ⊆ timer_set (remembered_timer (set_db_last_ticker interval hook_key m)).
Proof.
  unfold requested_timer, remembered_timer. simpl.
  destruct interval as [i |], hook_key as [h |]; simpl; try apply empty_subseteq.
  destruct stop; simpl; [apply empty_subseteq |].
  destruct (truthy_interval i && truthy_key h); reflexivity.
Qed.

(** From a state that remembers its timers, [_set_ticker] leaves exactly
    the timer it was asked for. *)
Lemma set_ticker_tickers (interval : option Z) (hook_key : option string)
    (stop : bool) (s : St) :
  timers_remembered s ->
  tickers (set_ticker_state interval hook_key stop s)
  = timer_set (requested_timer interval hook_key stop).
Proof.
  unfold timers_remembered. simpl. intros H. apply set_eq. intros k.
  rewrite elem_of_union, elem_of_difference. split; [| auto].
  intros [[Hk Hn] | Hk]; [destruct Hn; apply H, Hk | exact Hk].
Qed.

Lemma set_ticker_remembered (interval : option Z) (hook_key : option string)
    (stop : bool) (s : St) :
  timers_remembered s -> timers_remembered (set_ticker_state interval hook_key stop s).
Proof.
  intros H. unfold timers_remembered. rewrite set_ticker_tickers by exact H.
  apply requested_is_remembered.
Qed.

Lemma remembered_with_mob (m' : Mob) (s : St) :
  remembered_timer m' = remembered_timer (mob s) ->
  timers_remembered s -> timers_remembered (with_mob m' s).
Proof. unfold timers_remembered. simpl. intros ->. auto. Qed.

Lemma remembered_modify (f : Mob -> Mob) :
  (forall m, remembered_timer (f m) = remembered_timer m) ->
  preserves timers_remembered (modify f).
Proof. intros Hf s H. simpl. apply remembered_with_mob; auto. Qed.

Lemma remembered__set_ticker (interval : option Z) (hook_key : option string)
    (stop : bool) :
  preserves timers_remembered (_set_ticker interval hook_key stop).
Proof. intros s H. rewrite _set_ticker_eq. apply set_ticker_remembered, H. Qed.

Lemma remembered_modify_world (f : World -> World) :
  preserves timers_remembered (modify_world f).
Proof. intros s H. exact H. Qed.

Lemma remembered_emit (e : Event) : preserves timers_remembered (emit e).
Proof. intros s H. exact H. Qed.

#[export] Hint Resolve remembered__set_ticker remembered_modify_world
  remembered_emit : preserve.

#[export] Hint Extern 1 (preserves timers_remembered (modify _)) =>
  apply remembered_modify; intros; reflexivity : preserve.

Lemma remembered_start_idle : preserves timers_remembered start_idle.
Proof. unfold start_idle. preserve. Qed.

#[export] Hint Resolve remembered_start_idle : preserve.

Lemma remembered_start_patrolling : preserves timers_remembered start_patrolling.
Proof. unfold start_patrolling. preserve. Qed.

#[export] Hint Resolve remembered_start_patrolling : preserve.

Lemma remembered_start_hunting : preserves timers_remembered start_hunting.
Proof. unfold start_hunting. preserve. Qed.

#[export] Hint Resolve remembered_start_hunting : preserve.

Lemma remembered_start_attacking : preserves timers_remembered start_attacking.
Proof. unfold start_attacking. preserve. Qed.

Lemma remembered_set_alive : preserves timers_remembered set_alive.
Proof. unfold set_alive, move_to. preserve. Qed.

Lemma remembered_set_dead : preserves timers_remembered set_dead.
Proof. unfold set_dead. preserve. Qed.

Lemma remembered_at_init : preserves timers_remembered at_init.
Proof. unfold at_init. preserve. Qed.

Lemma call_cases (c : Call) : c = call_at_init \/ no_reboot c.
Proof. destruct c; [left; reflexivity | right; discriminate ..]. Qed.

(** The discipline holds after every call, a reboot included. *)
Lemma remembered_run (execute_cmd : string -> World -> World) (c : Call) :
  preserves timers_remembered (run execute_cmd c).
Proof.
  destruct (call_cases c) as [-> | Hc]; [apply remembered_at_init |].
  apply preserves_run; auto with preserve.
  - apply remembered_start_attacking.
  - apply remembered_set_alive.
  - apply remembered_set_dead.
Qed.

(** ** The timer goes with the state *)

Lemma timer_inv_intro (s : St) (i : Z) (h : string) :
  paces_nonzero (mob s) ->
  tickers s = timer_set (requested_timer (Some i) (Some h) false) ->
  db_last_ticker_interval (mob s) = Some i ->
  db_last_hook_key (mob s) = Some h ->
  timer_of (mob s) = (i, h) ->
  truthy_key h = true ->
  (ndb_is_patrolling (mob s) = true -> db_patrolling (mob s) = true) ->
  (state_of (mob s) <> Dormant -> i <> 0%Z) ->
  timer_inv s.
Proof.
  intros Hp Ht Hi Hh Hof Hk H3 H4. unfold timer_inv, timers_remembered.
  rewrite Ht, Hof. unfold remembered_timer, requested_timer. rewrite Hi, Hh, Hk.
  simpl. rewrite andb_true_r.
  split; [exact Hp |]. split; [reflexivity |]. split; [| split; [exact H3 |]].
  - intros k. destruct (truthy_interval i); simpl.
    + apply elem_of_singleton.
    + intros Hin. exfalso. exact (not_elem_of_empty k Hin).
  - intros _ Hs. specialize (H4 Hs). unfold truthy_interval.
    destruct (Z.eqb_spec i 0); [contradiction |]. simpl.
    apply non_empty_singleton_L.
Qed.


(** A set of timers below a single timer is empty or that timer. *)
Lemma timer_set_subset (t : gset (Z * string)) (k : option (Z * string)) :
  t ⊆ timer_set k -> t = ∅ \/ exists i h, t = {[ (i, h) ]}.
Proof.
  destruct k as [[i h] |]; simpl; intros Ht; [| left; set_solver].
  destruct (decide ((i, h) ∈ t)); [right; exists i, h | left]; set_solver.
Qed.

Lemma timer_inv_modify_world (f : World -> World) : preserves timer_inv (modify_world f).
Proof. intros s H. exact H. Qed.

Lemma timer_inv_emit (e : Event) : preserves timer_inv (emit e).
Proof. intros s H. exact H. Qed.

Lemma timer_inv_location (v : option dbref) : preserves timer_inv (modify (set_location v)).
Proof. intros s H. exact H. Qed.

Lemma timer_inv_health (v : option float) : preserves timer_inv (modify (set_db_health v)).
Proof. intros s H. exact H. Qed.

(** Going idle: the timer is gone; this is the way out of [start_patrolling]
    for a mob that does not patrol. *)
Lemma start_idle_inv (s : St) :
  timer_inv s -> db_patrolling (mob s) = false ->
  timer_inv (set_ticker_state None None true s).
Proof.
  intros (Hp & Hr & Hk & H3 & H4) E.
  split; [exact Hp |]. split; [apply set_ticker_remembered, Hr |].
  rewrite set_ticker_tickers by exact Hr. simpl.
  split; [| split; [exact H3 |]].
  - intros k Hin. exfalso. exact (not_elem_of_empty k Hin).
  - rewrite E. discriminate.
Qed.

Lemma start_patrolling_establishes (s : St) :
  paces_nonzero (mob s) -> timers_remembered s -> db_patrolling (mob s) = true ->
  timer_inv (after (start_patrolling s)).
Proof.
  intros Hp Hr E. rewrite start_patrolling_eq, E. simpl after.
  apply timer_inv_intro
    with (i := db_patrolling_pace (mob s)) (h := "do_patrol"%string);
    try reflexivity.
  - exact Hp.
  - apply (set_ticker_tickers _ _ _ s Hr).
  - intros _. exact E.
  - intros _. apply Hp.
Qed.

Lemma timer_inv_start_patrolling : preserves timer_inv start_patrolling.
Proof.
  intros s H. destruct (db_patrolling (mob s)) eqn:E.
  - destruct H as (Hp & Hr & _). apply start_patrolling_establishes; assumption.
  - rewrite start_patrolling_eq, E. apply start_idle_inv; assumption.
Qed.

Lemma timer_inv_start_hunting : preserves timer_inv start_hunting.
Proof.
  intros s H. rewrite start_hunting_eq.
  destruct (db_hunting (mob s)) eqn:E; [| apply timer_inv_start_patrolling, H].
  destruct H as (Hp & Hr & _). simpl after.
  apply timer_inv_intro
    with (i := db_hunting_pace (mob s)) (h := "do_hunt"%string);
    try reflexivity.
  - exact Hp.
  - apply (set_ticker_tickers _ _ _ s Hr).
  - discriminate.
  - intros _. apply Hp.
Qed.

Lemma timer_inv_start_attacking : preserves timer_inv start_attacking.
Proof.
  intros s H. rewrite start_attacking_eq.
  destruct (db_aggressive (mob s)) eqn:E; [| apply timer_inv_start_hunting, H].
  destruct H as (Hp & Hr & _). simpl after.
  apply timer_inv_intro
    with (i := db_aggressive_pace (mob s)) (h := "do_attack"%string);
    try reflexivity.
  - exact Hp.
  - apply (set_ticker_tickers _ _ _ s Hr).
  - discriminate.
  - intros _. apply Hp.
Qed.

Lemma timer_inv_set_dead : preserves timer_inv set_dead.
Proof.
  intros s (Hp & Hr & _). rewrite set_dead_eq. simpl after.
  apply timer_inv_intro with (i := db_death_pace (mob s)) (h := "set_alive"%string);
    try reflexivity.
  - exact Hp.
  - apply set_ticker_tickers. apply remembered_with_mob; [reflexivity | exact Hr].
  - discriminate.
  - intros Hs. contradiction Hs. reflexivity.
Qed.

Lemma timer_inv_set_alive : preserves timer_inv set_alive.
Proof.
  intros s (Hp & Hr & Hk & H3 & H4). rewrite set_alive_eq. cbv zeta.
  destruct (db_patrolling (mob s)) eqn:E.
  - apply start_patrolling_establishes; [exact Hp | | exact E].
    apply remembered_with_mob; [reflexivity | exact Hr].
  - simpl after.
    assert (ndb_is_patrolling (mob s) = false) as Hn.
    { destruct (ndb_is_patrolling (mob s)); [| reflexivity].
      specialize (H3 eq_refl). discriminate. }
    assert (forall v, state_of (set_location v
              (set_ndb_is_patrolling false
                 (set_ndb_is_immortal (db_immortal (mob s))
                    (set_db_desc (db_desc_alive (mob s))
                       (set_db_is_dead false
                          (set_db_health (db_full_health (mob s)) (mob s)))))))
            = state_of (mob s)) as Hst.
    { intros v. unfold state_of. simpl. rewrite Hn. reflexivity. }
    split; [exact Hp |]. split; [apply remembered_with_mob; [reflexivity | exact Hr] |].
    unfold timer_of. simpl mob. rewrite Hst. simpl tickers.
    split; [exact Hk |]. split; [simpl; discriminate |].
    simpl. rewrite E. discriminate.
Qed.

(** The timer goes with the state wherever the mob gets without a reboot. *)
Lemma timer_inv_reachable (execute_cmd : string -> World -> World) (s0 s : St) :
  timer_inv s0 -> reachable execute_cmd no_reboot s0 s -> timer_inv s.
Proof.
  apply reachable_preserves.
  - apply timer_inv_modify_world.
  - apply timer_inv_emit.
  - apply timer_inv_location.
  - apply timer_inv_health.
  - apply timer_inv_start_patrolling.
  - apply timer_inv_start_hunting.
  - apply timer_inv_start_attacking.
  - apply timer_inv_set_alive.
  - apply timer_inv_set_dead.
Qed.

Lemma not_started_inv (s : St) : paces_nonzero (mob s) -> not_started s -> timer_inv s.
Proof.
  intros Hp [Hs Ht]. unfold timer_inv, timers_remembered. rewrite Ht.
  split; [exact Hp |]. split; [apply empty_subseteq |]. split; [| split].
  - intros k Hin. exfalso. exact (not_elem_of_empty k Hin).
  - revert Hs. unfold state_of.
    destruct (ndb_is_attacking (mob s)), (ndb_is_hunting (mob s)),
      (ndb_is_patrolling (mob s)); discriminate.
  - intros _ Hn. contradiction.
Qed.

(** ** Getting somewhere, call by call *)

Section Reach.

Variable execute_cmd : string -> World -> World.
Variable permitted : Call -> Prop.
Variables s0 s : St.
Hypothesis Hs : reachable execute_cmd permitted s0 s.

Lemma reach_set_alive :
  permitted call_set_alive -> reachable execute_cmd permitted s0 (after (set_alive s)).
Proof. exact (reach_call execute_cmd permitted s0 s call_set_alive Hs). Qed.

Lemma reach_set_dead :
  permitted call_set_dead -> reachable execute_cmd permitted s0 (after (set_dead s)).
Proof. exact (reach_call execute_cmd permitted s0 s call_set_dead Hs). Qed.

Lemma reach_at_hit (weapon : Weapon) (attacker : dbref) (damage : float) :
  permitted (call_at_hit weapon attacker damage) ->
  reachable execute_cmd permitted s0 (after (at_hit weapon attacker damage s)).
Proof.
  exact (reach_call execute_cmd permitted s0 s (call_at_hit weapon attacker damage) Hs).
Qed.

End Reach.

(** C1, as stated, fails: the drone that has been switched on and off again
    is dormant and has a timer registered, the reboot after [death_pace]. *)
Lemma timer_discipline_as_stated_fails :
  reachable cmd_misses no_reboot created switched_off /\
  state_of (mob switched_off) = Dormant /\
  tickers switched_off = {[ (90%Z, "set_alive"%string) ]} /\
  ~ one_timer_or_dormant switched_off.
Proof.
  split; [| split; [reflexivity | split; [vm_compute; reflexivity |]]].
  - unfold switched_off, switched_on.
    apply reach_set_dead; [| discriminate].
    apply reach_set_alive; [| discriminate].
    apply reach_start.
  - intros [[_ H] | [H _]].
    + apply (f_equal elements) in H. vm_compute in H. discriminate.
    + apply H. reflexivity.
Qed.

(** C1 (amended): for a mob with non-zero tick paces that starts out with no
    flag and no timer, after any sequence of activations, deactivations,
    ticks, hits and arrivals (no reboot in between): at most one timer is
    registered, never two; a registered timer is the one that goes with the
    state (the state's tick at the state's pace, and for a dormant mob the
    reboot [set_alive] at [death_pace]); and a patrol-capable mob that is
    not dormant has exactly that timer. *)
Theorem timer_discipline (execute_cmd : string -> World -> World) (s0 s : St) :
  paces_nonzero (mob s0) -> not_started s0 ->
  reachable execute_cmd no_reboot s0 s ->
  (tickers s = ∅ \/ exists i h, tickers s = {[ (i, h) ]}) /\
  (forall k, k ∈ tickers s -> k = timer_of (mob s)) /\
  (db_patrolling (mob s) = true -> state_of (mob s) <> Dormant ->
   tickers s = {[ timer_of (mob s) ]}).
Proof.
  intros Hp Hs Hr.
  destruct (timer_inv_reachable execute_cmd s0 s (not_started_inv s0 Hp Hs) Hr)
    as (_ & Hrem & Hk & _ & H4).
  pose proof (timer_set_subset _ _ Hrem) as Hone.
  split; [exact Hone |]. split; [exact Hk |].
  intros Hpat Hst. specialize (H4 Hpat Hst).
  destruct Hone as [He | (i & h & Hih)]; [contradiction |].
  rewrite Hih. f_equal. apply Hk. rewrite Hih. apply elem_of_singleton. reflexivity.
Qed.

(** The discipline on the drone after it has been switched on. *)
Lemma timer_discipline_witness :
  (tickers switched_on = ∅ \/ exists i h, tickers switched_on = {[ (i, h) ]}) /\
  (forall k, k ∈ tickers switched_on -> k = timer_of (mob switched_on)) /\
  (db_patrolling (mob switched_on) = true -> state_of (mob switched_on) <> Dormant ->
   tickers switched_on = {[ timer_of (mob switched_on) ]}).
Proof.
  apply (timer_discipline cmd_misses created switched_on).
  - repeat split; discriminate.
  - split; reflexivity.
  - unfold switched_on. apply reach_set_alive; [apply reach_start | discriminate].
Defined.

(** ** Deactivation and reactivation *)

(** C2, as stated, fails: switching the drone off leaves its health at 25. *)
Lemma deactivation_as_stated_fails :
  db_health (mob (after (set_dead switched_on))) = Some 25%float /\
  ~ deactivation_clears switched_on.
Proof.
  split; [vm_compute; reflexivity |].
  intros (_ & H & _). vm_compute in H. discriminate.
Qed.

(** C2 (amended): from any state, [set_dead] returns and leaves the mob
    dormant (dead, no behaviour flag, immortal) with its location cleared;
    its health is not cleared but kept as it was. *)
Theorem deactivation (s : St) :
  set_dead s = Ok tt (after (set_dead s)) /\
  state_of (mob (after (set_dead s))) = Dormant /\
  db_is_dead (mob (after (set_dead s))) = true /\
  ndb_is_immortal (mob (after (set_dead s))) = true /\
  location (mob (after (set_dead s))) = None /\
  db_health (mob (after (set_dead s))) = db_health (mob s).
Proof.
  split; [apply set_dead_ok |]. rewrite set_dead_eq. simpl.
  repeat split; reflexivity.
Qed.


(** C8, as stated, fails: switching off the drone that is already off
    cancels the reboot timer and installs it again. *)
Lemma deactivation_twice_as_stated_fails :
  new_events switched_off (after (set_dead switched_off))
  = [TickerRemove 90 "set_alive"; TickerAdd 90 "set_alive"] /\
  ~ deactivation_is_noop switched_off.
Proof.
  assert (new_events switched_off (after (set_dead switched_off))
          = [TickerRemove 90 "set_alive"; TickerAdd 90 "set_alive"]) as Hev
    by (vm_compute; reflexivity).
  split; [exact Hev |].
  intros H. assert (state_of (mob switched_off) = Dormant) as Hd by reflexivity.
  destruct (H Hd) as (_ & _ & Hno).
  apply (Hno 90%Z "set_alive"%string). rewrite Hev. apply list_elem_of_here.
Qed.

(** What a second [_set_ticker] with the same request does to the timers:
    nothing. *)
Lemma reinstall_same (t : gset (Z * string)) (k : option (Z * string)) :
  (t ∪ timer_set k) ∖ timer_set k ∪ timer_set k = t ∪ timer_set k.
Proof.
  apply set_eq. intros x. rewrite !elem_of_union, elem_of_difference, elem_of_union.
  destruct (decide (x ∈ timer_set k)); tauto.
Qed.

Lemma remembered_after_request (i : Z) (h : string) (m : Mob) :
  truthy_key h = true ->
  remembered_timer (set_db_last_ticker (Some i) (Some h) m)
  = requested_timer (Some i) (Some h) false.
Proof.
  intros Hh. unfold remembered_timer, requested_timer. simpl. rewrite Hh.
  reflexivity.
Qed.

Lemma remembered_shut_down (m : Mob) :
  remembered_timer (shut_down m) = remembered_timer m.
Proof. reflexivity. Qed.

(** C8 (amended): [set_dead] on a mob that [set_dead] has just deactivated
    leaves its attributes, the registered timers and the world as they are;
    it is not free of timer traffic, though: when [death_pace] is not zero
    it cancels the reboot timer and installs it again. *)
Theorem deactivation_twice (s : St) :
  let s1 := after (set_dead s) in
  let s2 := after (set_dead s1) in
  let reboot :=
    requested_timer (Some (db_death_pace (mob s))) (Some "set_alive"%string) false in
  set_dead s1 = Ok tt s2 /\
  mob s2 = mob s1 /\
  tickers s2 = tickers s1 /\
  world s2 = world s1 /\
  log s2 = (log s1 ++ removal_events reboot) ++ install_events reboot.
Proof.
  cbv zeta. split; [apply set_dead_ok |].
  rewrite (set_dead_eq (after (set_dead s))). rewrite set_dead_eq.
  cbn [after set_ticker_state with_mob mob world tickers log].
  rewrite !remembered_shut_down, remembered_after_request by reflexivity.
  split; [reflexivity |]. split; [apply reinstall_same |].
  split; reflexivity.
Qed.

(** ** A dead mob is immortal *)

Lemma dead_immortal_modify (f : Mob -> Mob) :
  (forall m, db_is_dead (f m) = db_is_dead m) ->
  (forall m, ndb_is_immortal (f m) = ndb_is_immortal m) ->
  preserves dead_immortal (modify f).
Proof.
  intros Hd Hi s H. unfold dead_immortal. simpl. rewrite Hd, Hi. exact H.
Qed.

Lemma dead_immortal__set_ticker (interval : option Z) (hook_key : option string)
    (stop : bool) :
  preserves dead_immortal (_set_ticker interval hook_key stop).
Proof. intros s H. rewrite _set_ticker_eq. exact H. Qed.

Lemma dead_immortal_modify_world (f : World -> World) :
  preserves dead_immortal (modify_world f).
Proof. intros s H. exact H. Qed.

Lemma dead_immortal_emit (e : Event) : preserves dead_immortal (emit e).
Proof. intros s H. exact H. Qed.

#[export] Hint Resolve dead_immortal__set_ticker dead_immortal_modify_world
  dead_immortal_emit : preserve.

#[export] Hint Extern 1 (preserves dead_immortal (modify _)) =>
  apply dead_immortal_modify; intros; reflexivity : preserve.

Lemma dead_immortal_start_patrolling : preserves dead_immortal start_patrolling.
Proof. unfold start_patrolling, start_idle. preserve. Qed.

#[export] Hint Resolve dead_immortal_start_patrolling : preserve.

Lemma dead_immortal_start_hunting : preserves dead_immortal start_hunting.
Proof. unfold start_hunting. preserve. Qed.

#[export] Hint Resolve dead_immortal_start_hunting : preserve.

Lemma dead_immortal_start_attacking : preserves dead_immortal start_attacking.
Proof. unfold start_attacking. preserve. Qed.

(** [set_alive], [set_dead] and [at_init] establish it, whatever came
    before. *)
Lemma set_alive_dead_immortal (s : St) : dead_immortal (after (set_alive s)).
Proof.
  rewrite set_alive_eq. cbv zeta. destruct (db_patrolling (mob s)).
  - apply dead_immortal_start_patrolling. intros H. discriminate H.
  - intros H. discriminate H.
Qed.

Lemma set_dead_dead_immortal (s : St) : dead_immortal (after (set_dead s)).
Proof. rewrite set_dead_eq. intros _. reflexivity. Qed.

Lemma at_init_dead_immortal (s : St) : dead_immortal (after (at_init s)).
Proof.
  unfold dead_immortal, at_init, bind, modify. simpl. intros ->.
  apply orb_true_r.
Qed.

Lemma dead_immortal_run (execute_cmd : string -> World -> World) (c : Call) :
  preserves dead_immortal (run execute_cmd c).
Proof.
  destruct (call_cases c) as [-> | Hc]; [intros s _; apply at_init_dead_immortal |].
  apply preserves_run; auto with preserve.
  - apply dead_immortal_start_attacking.
  - intros s _. apply set_alive_dead_immortal.
  - intros s _. apply set_dead_dead_immortal.
Qed.

Lemma dead_immortal_reachable (execute_cmd : string -> World -> World) (s0 s : St) :
  dead_immortal s0 -> reachable execute_cmd any_call s0 s -> dead_immortal s.
Proof.
  intros H0 Hr. induction Hr as [| s c Hr IH Hc | s w Hr IH].
  - exact H0.
  - apply dead_immortal_run, IH.
  - exact IH.
Qed.

(** A hit on an immortal mob returns and leaves the health alone. *)
Lemma at_hit_immortal (weapon : Weapon) (attacker : dbref) (damage : float) (s : St) :
  ndb_is_immortal (mob s) = true ->
  at_hit weapon attacker damage s = Ok tt (after (at_hit weapon attacker damage s)) /\
  db_health (mob (after (at_hit weapon attacker damage s))) = db_health (mob s).
Proof.
  intros Him. unfold at_hit, bind, get_mob.
  destruct (db_health (mob s)) as [h |] eqn:Eh; [| split; [reflexivity | exact Eh]].
  rewrite Him. cbn [negb ret]. rewrite Eh.
  destruct (h <=? 0)%float.
  - unfold msg, emit. rewrite set_dead_eq. split; [reflexivity | exact Eh].
  - destruct (db_aggressive (mob s)) eqn:Ea; [| split; [reflexivity | exact Eh]].
    destruct (ndb_is_attacking (mob s)); [split; [reflexivity | exact Eh] |].
    cbn [andb negb]. rewrite start_attacking_eq, Ea.
    split; [reflexivity | exact Eh].
Qed.

(** C10, as stated, fails on the drone that has just been created:
    [at_object_creation] marks it dead and sets no runtime flag, so it is
    dead and not immortal, and a magic hit of 10 takes its health from 25
    to 15. *)
Lemma dead_is_immortal_as_stated_fails :
  db_is_dead (mob created) = true /\
  ndb_is_immortal (mob created) = false /\
  db_health (mob created) = Some 25%float /\
  db_health (mob (after (at_hit plasma 7 10%float created))) = Some 15%float /\
  ~ dead_means_immortal created plasma 7 10%float.
Proof.
  assert (db_is_dead (mob created) = true) as Hd by (vm_compute; reflexivity).
  split; [exact Hd |].
  split; [vm_compute; reflexivity |].
  split; [vm_compute; reflexivity |].
  split; [vm_compute; reflexivity |].
  intros H. destruct (H Hd) as [Him _]. vm_compute in Him. discriminate Him.
Qed.

(** C10 (amended): once [set_dead], [at_init] or [set_alive] has run,
    whatever the mob goes through afterwards, whenever it is dead its
    runtime immortality flag is set (whatever [db.immortal] says); so a hit
    on the dead mob returns and leaves [db.health] as it is, and that health
    is the one from before the death, which [set_dead] does not touch. A
    mob on which none of the three has run yet is left out: as
    [at_object_creation] makes it, it is dead without being immortal. *)
Theorem dead_is_immortal (execute_cmd : string -> World -> World)
    (before s : St) (weapon : Weapon) (attacker : dbref) (damage : float) :
  reachable execute_cmd any_call (after (set_dead before)) s \/
  reachable execute_cmd any_call (after (at_init before)) s \/
  reachable execute_cmd any_call (after (set_alive before)) s ->
  db_is_dead (mob s) = true ->
  ndb_is_immortal (mob s) = true /\
  at_hit weapon attacker damage s = Ok tt (after (at_hit weapon attacker damage s)) /\
  db_health (mob (after (at_hit weapon attacker damage s))) = db_health (mob s) /\
  db_health (mob (after (set_dead before))) = db_health (mob before).
Proof.
  intros Hr Hdead.
  assert (ndb_is_immortal (mob s) = true) as Him.
  { destruct Hr as [Hr | [Hr | Hr]];
      refine (dead_immortal_reachable execute_cmd _ s _ Hr Hdead).
    - apply set_dead_dead_immortal.
    - apply at_init_dead_immortal.
    - apply set_alive_dead_immortal. }
  split; [exact Him |].
  destruct (at_hit_immortal weapon attacker damage s Him) as [Hok Hh].
  split; [exact Hok |]. split; [exact Hh |].
  rewrite set_dead_eq. reflexivity.
Qed.

(** The drone switched off, hit with an ordinary weapon. *)
Lemma dead_is_immortal_witness :
  ndb_is_immortal (mob switched_off) = true /\
  at_hit blade 7 50%float switched_off
  = Ok tt (after (at_hit blade 7 50%float switched_off)) /\
  db_health (mob (after (at_hit blade 7 50%float switched_off)))
  = db_health (mob switched_off) /\
  db_health (mob (after (set_dead switched_on))) = db_health (mob switched_on).
Proof.
  apply (dead_is_immortal cmd_misses switched_on switched_off blade 7 50%float).
  - left. unfold switched_off. apply reach_start.
  - vm_compute. reflexivity.
Defined.

(** ** Binary64 subtraction keeps a positive difference positive *)

Module FloatFacts.

Local Open Scope Z_scope.

Lemma digits2_pos_bounds (m : positive) :
  2 ^ (Zpos (digits2_pos m) - 1) <= Zpos m < 2 ^ Zpos (digits2_pos m).
Proof.
  induction m as [m IH | m IH |]; simpl digits2_pos.
  - rewrite Pos2Z.inj_succ.
    replace (Z.succ (Zpos (digits2_pos m)) - 1) with (Z.succ (Zpos (digits2_pos m) - 1)) by lia.
    rewrite !Z.pow_succ_r by lia. lia.
  - rewrite Pos2Z.inj_succ.
    replace (Z.succ (Zpos (digits2_pos m)) - 1) with (Z.succ (Zpos (digits2_pos m) - 1)) by lia.
    rewrite !Z.pow_succ_r by lia. lia.
  - simpl. lia.
Qed.

Lemma shr_1_digits (mrs : shr_record) :
  0 <= shr_m mrs ->
  0 <= shr_m (shr_1 mrs) /\
  Zdigits2 (shr_m (shr_1 mrs)) = Z.max (Zdigits2 (shr_m mrs) - 1) 0.
Proof.
  destruct mrs as [m r s]. simpl shr_m at 1 2. intros Hm.
  destruct m as [| p | p]; [simpl; lia | | lia].
  destruct p as [p | p |]; simpl; rewrite ?Pos2Z.inj_succ; lia.
Qed.

Lemma iter_shr_1_digits (p : positive) : forall mrs : shr_record,
  0 <= shr_m mrs ->
  0 <= shr_m (SpecFloat.iter_pos shr_1 p mrs) /\
  Zdigits2 (shr_m (SpecFloat.iter_pos shr_1 p mrs)) = Z.max (Zdigits2 (shr_m mrs) - Zpos p) 0.
Proof.
  induction p as [p IH | p IH |]; intros mrs Hm; simpl SpecFloat.iter_pos.
  - destruct (shr_1_digits mrs Hm) as [H1 E1].
    destruct (IH _ H1) as [H2 E2]. destruct (IH _ H2) as [H3 E3].
    split; [exact H3 |]. rewrite E3, E2, E1. lia.
  - destruct (IH _ Hm) as [H2 E2]. destruct (IH _ H2) as [H3 E3].
    split; [exact H3 |]. rewrite E3, E2. lia.
  - apply shr_1_digits, Hm.
Qed.

Lemma Zdigits2_pos_inv (m : Z) : 0 <= m -> 0 < Zdigits2 m -> 0 < m.
Proof. destruct m; simpl; lia. Qed.

Lemma Zdigits2_nonneg (m : Z) : 0 <= Zdigits2 m.
Proof. destruct m; simpl; lia. Qed.


Lemma shr_m_of_loc (m : Z) (l : SpecFloat.location) : shr_m (shr_record_of_loc m l) = m.
Proof. destruct l as [| []]; reflexivity. Qed.

Lemma fexp_unfold (k : Z) : fexp prec emax k = Z.max (k - 53) (-1074).
Proof. reflexivity. Qed.

Lemma shr_fexp_pos (m e : Z) (l : SpecFloat.location) :
  0 < m -> -1074 <= e ->
  0 < shr_m (fst (shr_fexp prec emax m e l)) /\ -1074 <= snd (shr_fexp prec emax m e l).
Proof.
  intros Hm He. unfold shr_fexp, shr.
  pose proof (fexp_unfold (Zdigits2 m + e)) as Hf.
  destruct (fexp prec emax (Zdigits2 m + e) - e) as [| p | p] eqn:Hn; simpl fst; simpl snd;
    rewrite ?shr_m_of_loc; try (split; lia).
  destruct (iter_shr_1_digits p (shr_record_of_loc m l)) as [H0 Hd].
  { rewrite shr_m_of_loc. lia. }
  rewrite shr_m_of_loc in Hd. split; [| lia].
  apply Zdigits2_pos_inv; [exact H0 |]. rewrite Hd. lia.
Qed.

Lemma round_nearest_even_pos (m : Z) (l : SpecFloat.location) : 0 < m -> 0 < round_nearest_even m l.
Proof.
  intros Hm. destruct l as [| []]; simpl; try lia.
  destruct (Z.even m); lia.
Qed.

Lemma binary_round_aux_sign (s : bool) (m e : Z) (l : SpecFloat.location) :
  0 < m -> -1074 <= e ->
  (exists m' e', binary_round_aux prec emax s m e l = S754_finite s m' e') \/
  binary_round_aux prec emax s m e l = S754_infinity s.
Proof.
  intros Hm He. unfold binary_round_aux.
  destruct (shr_fexp_pos m e l Hm He) as [H1 H2].
  destruct (shr_fexp prec emax m e l) as [mrs1 e1]. simpl in H1, H2.
  pose proof (round_nearest_even_pos (shr_m mrs1) (loc_of_shr_record mrs1) H1) as Hr.
  destruct (shr_fexp_pos _ e1 loc_Exact Hr H2) as [H3 H4].
  destruct (shr_fexp prec emax _ e1 loc_Exact) as [mrs2 e2]. simpl in H3, H4.
  destruct (shr_m mrs2) as [| q | q]; try lia.
  destruct (e2 <=? emax - prec); eauto.
Qed.

Lemma shl_align_exp (m : positive) (e e' : Z) :
  -1074 <= e -> -1074 <= e' -> -1074 <= snd (shl_align m e e').
Proof. intros He He'. unfold shl_align. destruct (e' - e); simpl; lia. Qed.

Lemma binary_normalize_pos (m e : Z) (z : bool) :
  0 < m -> -1074 <= e -> sf_positive (binary_normalize prec emax m e z) = true.
Proof.
  intros Hm He. destruct m as [| p | p]; try lia.
  unfold binary_normalize, binary_round.
  pose proof (shl_align_exp p e (fexp prec emax (Zpos (digits2_pos p) + e)) He) as Ha.
  rewrite fexp_unfold in *.
  destruct (shl_align p e _) as [mz ez]. simpl in Ha.
  destruct (binary_round_aux_sign false (Zpos mz) ez loc_Exact) as [(m' & e' & ->) | ->];
    [lia | lia | reflexivity | reflexivity].
Qed.


Lemma iter_xO_pow2 (m d : positive) : Zpos (Pos.iter xO m d) = Zpos m * 2 ^ Zpos d.
Proof.
  induction d as [| d IH] using Pos.peano_ind.
  - simpl. lia.
  - rewrite Pos.iter_succ, Pos2Z.inj_xO, IH, Pos2Z.inj_succ, Z.pow_succ_r by lia. lia.
Qed.

Lemma shl_align_value (m : positive) (e ez : Z) :
  ez <= e -> Zpos (fst (shl_align m e ez)) = Zpos m * 2 ^ (e - ez).
Proof.
  intros Hle. unfold shl_align.
  destruct (ez - e) as [| d | d] eqn:Hd; simpl fst; try lia.
  - replace (e - ez) with 0 by lia. lia.
  - rewrite iter_xO_pow2. f_equal. f_equal. lia.
Qed.

(** What validity of a finite binary64 number says about its mantissa and
    exponent: at most 53 digits, exactly 53 above the least exponent. *)
Lemma bounded_inv (m : positive) (e : Z) :
  bounded prec emax m e = true ->
  -1074 <= e /\ Zpos (digits2_pos m) <= 53 /\ (-1074 < e -> Zpos (digits2_pos m) = 53).
Proof.
  unfold bounded, canonical_mantissa. rewrite fexp_unfold.
  intros [H _]%andb_prop. apply Z.eqb_eq in H. lia.
Qed.

(** Two valid positive magnitudes, the first with the smaller exponent or
    the same exponent and the smaller mantissa, stay ordered once aligned. *)
Lemma aligned_lt (m1 m2 : positive) (e1 e2 : Z) :
  bounded prec emax m1 e1 = true -> bounded prec emax m2 e2 = true ->
  (e1 < e2 \/ (e1 = e2 /\ (m1 < m2)%positive)) ->
  Zpos (fst (shl_align m1 e1 (Z.min e2 e1))) < Zpos (fst (shl_align m2 e2 (Z.min e2 e1))).
Proof.
  intros [He1 [Hd1 _]]%bounded_inv [He2 [_ Hd2]]%bounded_inv Hlt.
  rewrite !shl_align_value by lia.
  destruct Hlt as [Hlt | [-> Hlt]].
  - replace (Z.min e2 e1) with e1 by lia. rewrite Z.sub_diag, Z.pow_0_r, Z.mul_1_r.
    pose proof (digits2_pos_bounds m1) as [_ B1].
    pose proof (digits2_pos_bounds m2) as [B2 _].
    rewrite Hd2 in B2 by lia.
    assert (Zpos m1 < 2 ^ 53) as B1'.
    { eapply Z.lt_le_trans; [exact B1 |]. apply Z.pow_le_mono_r; lia. }
    assert (2 ^ 1 <= 2 ^ (e2 - e1)) as Hp by (apply Z.pow_le_mono_r; lia).
    change (2 ^ (53 - 1)) with 4503599627370496 in B2.
    change (2 ^ 53) with 9007199254740992 in B1'.
    change (2 ^ 1) with 2 in Hp. nia.
  - rewrite Z.min_id, Z.sub_diag, Z.pow_0_r. lia.
Qed.

Lemma SFcompare_finite_Lt (s1 s2 : bool) (m1 m2 : positive) (e1 e2 : Z) :
  SFcompare (S754_finite s1 m1 e1) (S754_finite s2 m2 e2) = Some Lt ->
  (s1 = true /\ s2 = false) \/
  (s1 = false /\ s2 = false /\ (e1 < e2 \/ (e1 = e2 /\ (m1 < m2)%positive))) \/
  (s1 = true /\ s2 = true /\ (e2 < e1 \/ (e2 = e1 /\ (m2 < m1)%positive))).
Proof.
  unfold SFcompare.
  change (PosDef.Pos.compare_cont Eq m1 m2) with (m1 ?= m2)%positive.
  destruct s1, s2; intros H; try (injection H as H); try discriminate; auto.
  - right; right. repeat split.
    destruct (Z.compare_spec e1 e2) as [-> | Hlt | Hgt]; try discriminate; auto.
    right. split; [reflexivity |].
    apply Pos.compare_gt_iff. destruct (m1 ?= m2)%positive; simpl in H; congruence.
  - right; left. repeat split.
    destruct (Z.compare_spec e1 e2) as [-> | Hlt | Hgt]; try discriminate; auto.
Qed.

Lemma SFsub_pos (x y : spec_float) :
  valid_binary x = true -> valid_binary y = true ->
  SFltb y x = true -> sf_positive (SF64sub x y) = true.
Proof.
  intros Vx Vy. unfold SFltb, SF64sub.
  destruct x as [sx | sx | | sx mx ex], y as [sy | sy | | sy my ey].
  16: {
    destruct (SFcompare _ _) as [[] |] eqn:Hc; try discriminate. intros _.
    simpl in Vx, Vy.
    pose proof (bounded_inv _ _ Vx) as [Bx _]. pose proof (bounded_inv _ _ Vy) as [By _].
    unfold SFsub. cbv zeta. apply binary_normalize_pos; [| lia].
    apply SFcompare_finite_Lt in Hc.
    destruct Hc as [[-> ->] | [(-> & -> & Hlt) | (-> & -> & Hlt)]]; simpl cond_Zopp.
    - lia.
    - pose proof (aligned_lt my mx ey ex Vy Vx Hlt). lia.
    - rewrite Z.min_comm.
      assert (ex < ey \/ ex = ey /\ (mx < my)%positive) as Hlt' by tauto.
      pose proof (aligned_lt mx my ex ey Vx Vy Hlt'). lia.
  }
  all: try destruct sx; try destruct sy; simpl; try discriminate; reflexivity.
Qed.

(** The property of binary64 subtraction used by [at_hit]: whenever [a < h]
    holds, [h - a <= 0] fails (subtraction never rounds a positive
    difference to zero or below). *)
Lemma float_sub_below (h a : float) :
  (a <? h)%float = true -> (h - a <=? 0)%float = false.
Proof.
  rewrite ltb_spec, leb_spec, sub_spec. intros Hlt.
  pose proof (SFsub_pos _ _ (Prim2SF_valid h) (Prim2SF_valid a) Hlt) as Hp.
  change (Prim2SF 0) with (S754_zero false).
  destruct (SF64sub (Prim2SF h) (Prim2SF a)) as [s | s | | s m e];
    try destruct s; simpl in Hp; try discriminate; reflexivity.
Qed.

End FloatFacts.

(** ** Hits *)

(** The state after a hit that does not kill: the attacker is answered,
    and an aggressive mob that was not attacking starts to. *)
Lemma start_attacking_aggressive (s : St) :
  db_aggressive (mob s) = true ->
  start_attacking s = Ok tt (after (start_attacking s)) /\
  ndb_is_attacking (mob (after (start_attacking s))) = true /\
  db_health (mob (after (start_attacking s))) = db_health (mob s) /\
  db_is_dead (mob (after (start_attacking s))) = db_is_dead (mob s) /\
  location (mob (after (start_attacking s))) = location (mob s).
Proof.
  intros Ha. rewrite start_attacking_eq, Ha. simpl. repeat split; reflexivity.
Qed.

(** [at_hit] on a mortal mob, once the damage is settled: the health goes
    down after the message [told], and then the mob dies or fights. *)
Lemma at_hit_mortal_eq (s : St) (weapon : Weapon) (attacker : dbref)
    (damage h applied : float) (told : Event) :
  ndb_is_immortal (mob s) = false ->
  db_health (mob s) = Some h ->
  (if negb (db_magic weapon) then
     (db_damage_resistance (mob s) =? 0)%float = false /\
     applied = (damage / db_damage_resistance (mob s))%float /\
     told = Msg attacker (Plain (db_weapon_ineffective_msg (mob s)))
   else
     exists room, location (mob s) = Some room /\ applied = damage /\
                  told = MsgContents room (Plain (db_hit_msg (mob s))) []) ->
  let s1 := with_mob (set_db_health (Some (h - applied)%float) (mob s))
              (with_log (log s ++ [told]) s) in
  at_hit weapon attacker damage s =
  if (h - applied <=? 0)%float then
    set_dead (with_log (log s1 ++ [Msg attacker (Plain (db_death_msg (mob s)))]) s1)
  else if db_aggressive (mob s) && negb (ndb_is_attacking (mob s)) then
    start_attacking s1
  else Ok tt s1.
Proof.
  intros Him Hh Hw. cbv zeta.
  unfold at_hit, bind, get_mob, self_location, msg_contents, msg, emit, modify, ret,
    bind, get_mob.
  rewrite Hh, Him. cbn [negb].
  destruct (negb (db_magic weapon)).
  - destruct Hw as (-> & -> & ->).
    cbn [mob with_mob with_log db_health set_db_health].
    destruct (_ <=? 0)%float; [reflexivity |].
    cbn [db_aggressive attrs ndb_is_attacking set_db_health].
    destruct (db_aggressive (mob s) && negb (ndb_is_attacking (mob s))); reflexivity.
  - destruct Hw as (room & -> & -> & ->).
    cbn [mob with_mob with_log db_health set_db_health].
    destruct (_ <=? 0)%float; [reflexivity |].
    cbn [db_aggressive attrs ndb_is_attacking set_db_health].
    destruct (db_aggressive (mob s) && negb (ndb_is_attacking (mob s))); reflexivity.
Qed.

(** C4: a hit with a weapon that is not magic on a mortal mob whose damage
    resistance is not zero returns and takes [damage / damage_resistance]
    off the health; when that quotient is below the health, the health
    stays above zero and the mob is not killed (not dead, not moved), and
    an aggressive mob is attacking afterwards; with health 25, resistance
    100 and damage 50 the health ends at 24.5. *)
Theorem ordinary_weapon_hit (s : St) (weapon : Weapon) (attacker : dbref)
    (damage h : float) :
  ndb_is_immortal (mob s) = false ->
  db_magic weapon = false ->
  db_health (mob s) = Some h ->
  (db_damage_resistance (mob s) =? 0)%float = false ->
  let applied := (damage / db_damage_resistance (mob s))%float in
  let s' := after (at_hit weapon attacker damage s) in
  at_hit weapon attacker damage s = Ok tt s' /\
  db_health (mob s') = Some (h - applied)%float /\
  ((applied <? h)%float = true ->
   (h - applied <=? 0)%float = false /\
   db_is_dead (mob s') = db_is_dead (mob s) /\
   location (mob s') = location (mob s) /\
   (db_aggressive (mob s) = true -> state_of (mob s') = Attacking)) /\
  (h = 25%float -> db_damage_resistance (mob s) = 100%float -> damage = 50%float ->
   db_health (mob s') = Some 24.5%float).
Proof.
  intros Him Hmag Hh Hdr. cbv zeta.
  set (applied := (damage / db_damage_resistance (mob s))%float).
  rewrite (at_hit_mortal_eq s weapon attacker damage h applied
             (Msg attacker (Plain (db_weapon_ineffective_msg (mob s)))) Him Hh)
    by (rewrite Hmag; simpl; auto).
  cbv zeta.
  set (s1 := with_mob _ _).
  assert (state_attacking : forall m, ndb_is_attacking m = true -> state_of m = Attacking).
  { intros m Hm. unfold state_of. rewrite Hm. reflexivity. }
  assert (Hres :
    let r := if (h - applied <=? 0)%float then
               set_dead (with_log (log s1 ++ [Msg attacker (Plain (db_death_msg (mob s)))]) s1)
             else if db_aggressive (mob s) && negb (ndb_is_attacking (mob s)) then
               start_attacking s1
             else Ok tt s1 in
    r = Ok tt (after r) /\
    db_health (mob (after r)) = Some (h - applied)%float /\
    ((h - applied <=? 0)%float = false ->
     db_is_dead (mob (after r)) = db_is_dead (mob s) /\
     location (mob (after r)) = location (mob s) /\
     (db_aggressive (mob s) = true -> state_of (mob (after r)) = Attacking))).
  { cbv zeta. destruct (h - applied <=? 0)%float.
    - rewrite set_dead_eq. simpl. repeat split; try reflexivity; discriminate.
    - destruct (db_aggressive (mob s)) eqn:Ea; cbn [andb].
      + destruct (ndb_is_attacking (mob s)) eqn:Eat; cbn [negb].
        * simpl. repeat split; try reflexivity. intros _. apply state_attacking, Eat.
        * destruct (start_attacking_aggressive s1 Ea) as (Hok & Hat & Hhe & Hde & Hlo).
          rewrite Hhe, Hde, Hlo. repeat split; try reflexivity; auto.
      + simpl. repeat split; try reflexivity. discriminate. }
  cbv zeta in Hres. destruct Hres as (Hok & Hhe & Hlive).
  split; [exact Hok |]. split; [exact Hhe |]. split.
  - intros Hlt. pose proof (FloatFacts.float_sub_below h applied Hlt) as Hpos.
    split; [exact Hpos |]. apply Hlive, Hpos.
  - intros -> Hr ->. rewrite Hhe. unfold applied. rewrite Hr. reflexivity.
Qed.

(** The scenario of C4 on the drone: 25 - 50 / 100 = 24.5, and it attacks. *)
Lemma ordinary_weapon_hit_witness :
  at_hit blade 7 50%float switched_on
  = Ok tt (after (at_hit blade 7 50%float switched_on)) /\
  db_health (mob (after (at_hit blade 7 50%float switched_on))) = Some 24.5%float /\
  state_of (mob (after (at_hit blade 7 50%float switched_on))) = Attacking.
Proof.
  destruct (ordinary_weapon_hit switched_on blade 7 50%float 25%float)
    as (Hok & _ & Hlive & Hscenario).
  - vm_compute. reflexivity.
  - reflexivity.
  - vm_compute. reflexivity.
  - vm_compute. reflexivity.
  - split; [exact Hok |]. split; [apply Hscenario; vm_compute; reflexivity |].
    apply Hlive; vm_compute; reflexivity.
Defined.

Lemma removal_events_ticker (t : option (Z * string)) :
  Forall ticker_event (removal_events t).
Proof. destruct t as [[i h] |]; simpl; repeat constructor. Qed.

Lemma install_events_ticker (t : option (Z * string)) :
  Forall ticker_event (install_events t).
Proof. destruct t as [[i h] |]; simpl; repeat constructor. Qed.

(** C5, as stated, fails: the fatal hit of 30 with a magic weapon on the
    drone at health 25 sends the room one message, the hit message, and
    leaves nobody out; there is no defeat broadcast. *)
Lemma fatal_hit_as_stated_fails :
  new_events switched_on (after (at_hit plasma 7 30%float switched_on))
  = [MsgContents 1 (Plain (db_hit_msg drone)) [];
     Msg 7 (Plain (db_death_msg drone));
     TickerRemove 6 "do_patrol"; TickerAdd 90 "set_alive"] /\
  ~ fatal_hit_broadcast switched_on plasma 7 30%float.
Proof.
  assert (new_events switched_on (after (at_hit plasma 7 30%float switched_on))
          = [MsgContents 1 (Plain (db_hit_msg drone)) [];
             Msg 7 (Plain (db_death_msg drone));
             TickerRemove 6 "do_patrol"; TickerAdd 90 "set_alive"]) as Hev
    by (vm_compute; reflexivity).
  split; [exact Hev |].
  intros (_ & _ & room & text & exclude & Hin & Hex). rewrite Hev in Hin.
  repeat (apply elem_of_cons in Hin as [Hin | Hin]; [try discriminate Hin |]).
  - injection Hin as _ _ ->. apply elem_of_nil in Hex. exact Hex.
  - apply elem_of_nil in Hin. exact Hin.
Qed.

(** C5 (amended): a hit with a magic weapon on a mortal mob that stands in a
    room, with damage that takes the health to zero or below, returns with
    the mob dormant (dead, location cleared) and the health at
    [health - damage] (25 - 30 = -5); it first sends the hit message to
    everybody in the room, nobody left out, then the death message to the
    attacker, and after that only swaps its timer; no defeat broadcast is
    sent. *)
Theorem fatal_magic_hit (s : St) (weapon : Weapon) (attacker room : dbref)
    (damage h : float) :
  ndb_is_immortal (mob s) = false ->
  db_magic weapon = true ->
  db_health (mob s) = Some h ->
  location (mob s) = Some room ->
  (h - damage <=? 0)%float = true ->
  let s' := after (at_hit weapon attacker damage s) in
  at_hit weapon attacker damage s = Ok tt s' /\
  state_of (mob s') = Dormant /\
  db_is_dead (mob s') = true /\
  location (mob s') = None /\
  db_health (mob s') = Some (h - damage)%float /\
  (exists timer_events,
     Forall ticker_event timer_events /\
     log s' = log s ++ [MsgContents room (Plain (db_hit_msg (mob s))) [];
                        Msg attacker (Plain (db_death_msg (mob s)))]
                    ++ timer_events) /\
  (h = 25%float -> damage = 30%float -> db_health (mob s') = Some (-5)%float).
Proof.
  intros Him Hmag Hh Hloc Hle. cbv zeta.
  rewrite (at_hit_mortal_eq s weapon attacker damage h damage
             (MsgContents room (Plain (db_hit_msg (mob s))) []) Him Hh)
    by (rewrite Hmag; simpl; eauto).
  cbv zeta. rewrite Hle, set_dead_eq. simpl.
  repeat split; try reflexivity.
  - eexists. split; [| rewrite <- !app_assoc; reflexivity].
    apply Forall_app. split; [apply removal_events_ticker | apply install_events_ticker].
  - intros -> ->. reflexivity.
Qed.

(** The scenario of C5 on the drone: 25 - 30 = -5, and it is dormant. *)
Lemma fatal_magic_hit_witness :
  state_of (mob (after (at_hit plasma 7 30%float switched_on))) = Dormant /\
  db_health (mob (after (at_hit plasma 7 30%float switched_on))) = Some (-5)%float.
Proof.
  destruct (fatal_magic_hit switched_on plasma 7 1 30%float 25%float)
    as (_ & Hd & _ & _ & _ & _ & Hscenario).
  - reflexivity.
  - reflexivity.
  - vm_compute. reflexivity.
  - vm_compute. reflexivity.
  - vm_compute. reflexivity.
  - split; [exact Hd | apply Hscenario; reflexivity].
Defined.

(** ** Ticks and hits on a dormant mob *)

(** No tick has a guard for a mob that is off: with the location cleared,
    each one stops at its first look at the room. *)
Lemma tick_without_location (execute_cmd : string -> World -> World) (d : Dice) (s : St) :
  location (mob s) = None ->
  do_patrol d s = Raise AttributeError s /\
  do_hunt d s = Raise AttributeError s /\
  do_attack execute_cmd d s = Raise AttributeError s.
Proof.
  intros Hloc.
  unfold do_patrol, do_hunt, do_attack, irregular_msg, aggressive_target,
    traversable_exits, self_location, bind, get_mob, ret, raise.
  destruct (random_low d), (db_irregular_msgs (mob s)), (db_aggressive (mob s));
    cbn; rewrite ?Hloc; cbn; rewrite ?Hloc; repeat split; reflexivity.
Qed.

(** [set_dead] once more, whatever has been logged in between. *)
Lemma set_dead_again (s : St) (l : list Event) :
  let s1 := after (set_dead s) in
  let s2 := after (set_dead (with_log l s1)) in
  let reboot :=
    requested_timer (Some (db_death_pace (mob s))) (Some "set_alive"%string) false in
  mob s2 = mob s1 /\ tickers s2 = tickers s1 /\ world s2 = world s1 /\
  log s2 = (l ++ removal_events reboot) ++ install_events reboot.
Proof.
  cbv zeta. rewrite (set_dead_eq (with_log _ _)). rewrite set_dead_eq.
  cbn [after set_ticker_state with_mob with_log mob world tickers log].
  rewrite !remembered_shut_down, remembered_after_request by reflexivity.
  split; [reflexivity |]. split; [apply reinstall_same |].
  split; reflexivity.
Qed.

(** C6, as stated, fails on the drone that was shot down: a patrol tick on
    it does not return, it raises; and a further hit runs the death
    transition again, telling the attacker and swapping the reboot timer
    for itself. *)
Lemma dormant_as_stated_fails :
  state_of (mob shot_down) = Dormant /\
  do_patrol no_dice shot_down = Raise AttributeError shot_down /\
  new_events shot_down (after (at_hit plasma 7 30%float shot_down))
  = [Msg 7 (Plain (db_death_msg drone));
     TickerRemove 90 "set_alive"; TickerAdd 90 "set_alive"] /\
  ~ dormant_is_inert cmd_misses shot_down no_dice plasma 7 30%float.
Proof.
  assert (new_events shot_down (after (at_hit plasma 7 30%float shot_down))
          = [Msg 7 (Plain (db_death_msg drone));
             TickerRemove 90 "set_alive"; TickerAdd 90 "set_alive"]) as Hev
    by (vm_compute; reflexivity).
  assert (state_of (mob shot_down) = Dormant) as Hd by (vm_compute; reflexivity).
  split; [exact Hd |].
  split; [apply (tick_without_location cmd_misses); vm_compute; reflexivity |].
  split; [exact Hev |].
  intros H. destruct (H Hd) as [_ Hno].
  apply (Hno (TickerRemove 90 "set_alive")); [| exact I].
  rewrite Hev. apply list_elem_of_further, list_elem_of_here.
Qed.

(** C6 (amended): on every mob that [set_dead] has switched off, whatever
    its health, the mob is dormant and a patrol, hunt or attack tick changes
    nothing, but not by looking at the state: it raises at its first use of
    the cleared location. A hit on that mob, when the health it kept is zero
    or below, does run the death transition a second time: the attacker is
    told of the death again and the reboot timer is swapped for itself; the
    mob's attributes, the set of timers and the world come out as they
    were. *)
Theorem dormant_ticks_and_hits (execute_cmd : string -> World -> World) (s : St)
    (d : Dice) (weapon : Weapon) (attacker : dbref) (damage : float) :
  let s1 := after (set_dead s) in
  let s2 := after (at_hit weapon attacker damage s1) in
  let reboot :=
    requested_timer (Some (db_death_pace (mob s))) (Some "set_alive"%string) false in
  state_of (mob s1) = Dormant /\
  do_patrol d s1 = Raise AttributeError s1 /\
  do_hunt d s1 = Raise AttributeError s1 /\
  do_attack execute_cmd d s1 = Raise AttributeError s1 /\
  forall h : float,
    db_health (mob s) = Some h ->
    (h <=? 0)%float = true ->
    at_hit weapon attacker damage s1 = Ok tt s2 /\
    mob s2 = mob s1 /\ tickers s2 = tickers s1 /\ world s2 = world s1 /\
    log s2 = ((log s1 ++ [Msg attacker (Plain (db_death_msg (mob s)))])
                ++ removal_events reboot) ++ install_events reboot.
Proof.
  cbv zeta.
  destruct (tick_without_location execute_cmd d (after (set_dead s)))
    as (Hp & Hhu & Ha).
  { rewrite set_dead_eq. reflexivity. }
  split; [rewrite set_dead_eq; reflexivity |].
  split; [exact Hp |]. split; [exact Hhu |]. split; [exact Ha |].
  intros h Hh Hle.
  assert (at_hit weapon attacker damage (after (set_dead s))
          = set_dead (with_log (log (after (set_dead s))
                                  ++ [Msg attacker (Plain (db_death_msg (mob s)))])
                        (after (set_dead s)))) as Heq.
  { unfold at_hit, bind, get_mob, msg, emit, ret. rewrite set_dead_eq.
    cbn [after set_ticker_state with_mob mob world tickers log].
    cbn [db_health set_db_last_ticker shut_down set_ndb_is_immortal
           set_ndb_is_hunting set_ndb_is_attacking set_ndb_is_patrolling
           set_location set_db_is_dead ndb_is_immortal negb].
    rewrite Hh.
    cbn [set_ticker_state mob db_health set_db_last_ticker shut_down
           set_ndb_is_immortal set_ndb_is_hunting set_ndb_is_attacking
           set_ndb_is_patrolling set_location set_db_is_dead].
    change (db_health (mob (with_mob (shut_down (mob s)) s))) with (db_health (mob s)).
    rewrite Hh, Hle. reflexivity. }
  rewrite Heq. split; [apply set_dead_ok |].
  apply set_dead_again.
Qed.

(** The drone that was shot down, switched off once more, ticked and hit;
    and the healthy drone switched off by hand, ticked. *)
Lemma dormant_ticks_and_hits_witness :
  (do_patrol no_dice (after (set_dead shot_down))
   = Raise AttributeError (after (set_dead shot_down)) /\
   mob (after (at_hit plasma 7 30%float (after (set_dead shot_down))))
   = mob (after (set_dead shot_down))) /\
  (db_health (mob switched_on) = Some 25%float /\
   do_patrol no_dice (after (set_dead switched_on))
   = Raise AttributeError (after (set_dead switched_on))).
Proof.
  split.
  - destruct (dormant_ticks_and_hits cmd_misses shot_down no_dice plasma 7
                30%float) as (_ & Hp & _ & _ & Hhit).
    destruct (Hhit (-5)%float) as (_ & Hm & _).
    + vm_compute. reflexivity.
    + vm_compute. reflexivity.
    + split; [exact Hp | exact Hm].
  - destruct (dormant_ticks_and_hits cmd_misses switched_on no_dice plasma 7
                30%float) as (_ & Hp & _).
    split; [vm_compute; reflexivity | exact Hp].
Defined.

(** ** The hunt tick *)

Lemma _find_target_eq (room : dbref) (s : St) :
  _find_target (Some room) s = Ok (head (targets_in s room)) s.
Proof. reflexivity. Qed.

(** The loop over the exits takes the first exit that leads to a target;
    with none, the line after the loop runs. *)
Lemma hunt_exits_eq (exits : list Exit) (s : St) :
  hunt_exits exits s =
  match List.find (fun e => bool_decide (targets_in s (destination e) <> [])) exits with
  | Some e => move_to (destination e) s
  | None => start_patrolling s
  end.
Proof.
  induction exits as [| exit rest IH]; [reflexivity |].
  cbn [hunt_exits List.find]. unfold bind at 1. rewrite _find_target_eq.
  destruct (targets_in s (destination exit)) as [| target others]; cbn [head].
  - rewrite bool_decide_eq_false_2 by (intros H; apply H; reflexivity). exact IH.
  - rewrite bool_decide_eq_true_2 by discriminate. reflexivity.
Qed.

(** The ambient message, with the mob in a room: it returns, and at most
    the log has grown. *)
Lemma irregular_msg_ok (d : Dice) (s : St) (room : dbref) :
  location (mob s) = Some room ->
  exists ambient, irregular_msg d s = Ok tt (with_log (log s ++ ambient) s).
Proof.
  intros Hloc. unfold irregular_msg, bind, get_mob, self_location.
  destruct (random_low d), (db_irregular_msgs (mob s)) as [| text texts] eqn:Em;
    try (exists []; rewrite app_nil_r; destruct s; reflexivity).
  cbn. rewrite Hloc. cbn.
  destruct (random_choice_ok (pick_msg d) text texts s) as (y & _ & ->).
  eexists. reflexivity.
Qed.

Lemma do_hunt_eq (d : Dice) (s : St) (room : dbref) (l : list Event) :
  location (mob s) = Some room ->
  irregular_msg d s = Ok tt (with_log l s) ->
  targets_in s room = [] ->
  do_hunt d s =
  match List.filter access_traverse (exits (world s) room) with
  | [] => move_to (home (mob s)) (with_log l s)
  | e :: rest => hunt_exits (e :: rest) (with_log l s)
  end.
Proof.
  intros Hloc Hirr Hnone. unfold do_hunt.
  rewrite (bind_ok _ _ _ _ _ Hirr).
  unfold aggressive_target, traversable_exits, self_location, bind, get_mob, get_world, ret.
  cbn [mob with_log world]. rewrite Hloc.
  assert (_find_target (Some room) (with_log l s) = Ok None (with_log l s)) as Hf.
  { rewrite _find_target_eq. unfold targets_in. cbn [mob with_log world].
    fold (targets_in s room). rewrite Hnone. reflexivity. }
  destruct (db_aggressive (mob s)); rewrite ?Hf; cbn [mob with_log world];
    rewrite ?Hloc; cbn [mob with_log world];
    destruct (List.filter access_traverse (exits (world s) room)); reflexivity.
Qed.

(** C7, as stated, fails for a mob that hunts but does not patrol: with no
    target in its room nor behind its exit, the hunt tick cancels the timer
    and leaves the mob flagged as hunting; it is not patrolling. *)
Lemma hunt_as_stated_fails :
  state_of (mob pursuer) = Hunting /\
  state_of (mob (after (do_hunt no_dice pursuer))) = Hunting /\
  tickers (after (do_hunt no_dice pursuer)) = ∅ /\
  ~ hunt_falls_back_to_patrol pursuer no_dice 1.
Proof.
  split; [vm_compute; reflexivity |]. split; [vm_compute; reflexivity |].
  split; [vm_compute; reflexivity |].
  intros H.
  assert (location (mob pursuer) = Some 1) as Hloc by (vm_compute; reflexivity).
  assert (targets_in pursuer 1 = []) as Hnone by (vm_compute; reflexivity).
  specialize (H Hloc Hnone). vm_compute in H. discriminate H.
Qed.

(** C7 (amended): a hunt tick of a mob that stands in a room with no valid
    target in it returns; with no traversable exit the mob moves home; else
    it moves through the first traversable exit, in the order of the exits,
    whose destination holds a valid target, whatever the later exits hold;
    when no destination holds one it stays and starts patrolling if it is
    patrol-capable, and otherwise goes idle: its timer is cancelled and its
    flags stay as they were. *)
Theorem hunt_tick (s : St) (d : Dice) (room : dbref) :
  location (mob s) = Some room ->
  targets_in s room = [] ->
  let s' := after (do_hunt d s) in
  do_hunt d s = Ok tt s' /\
  match List.filter access_traverse (exits (world s) room) with
  | [] =>
      location (mob s') = Some (home (mob s)) /\ state_of (mob s') = state_of (mob s)
  | _ :: _ =>
      match first_exit_with_target s room with
      | Some e =>
          location (mob s') = Some (destination e) /\
          state_of (mob s') = state_of (mob s)
      | None =>
          location (mob s') = Some room /\
          if db_patrolling (mob s) then
            state_of (mob s') = Patrolling /\
            db_health (mob s') = db_full_health (mob s)
          else
            state_of (mob s') = state_of (mob s) /\
            tickers s' = tickers s ∖ timer_set (remembered_timer (mob s))
      end
  end.
Proof.
  intros Hloc Hnone. cbv zeta.
  destruct (irregular_msg_ok d s room Hloc) as [ambient Hirr].
  set (l := log s ++ ambient) in Hirr.
  rewrite (do_hunt_eq d s room l Hloc Hirr Hnone).
  unfold first_exit_with_target.
  destruct (List.filter access_traverse (exits (world s) room)) as [| e rest].
  { split; [reflexivity |]. split; reflexivity. }
  rewrite hunt_exits_eq.
  change (fun e0 : Exit =>
            bool_decide (targets_in (with_log l s) (destination e0) <> []))
    with (fun e0 : Exit => bool_decide (targets_in s (destination e0) <> [])).
  destruct (List.find _ (e :: rest)) as [e' |].
  { split; [reflexivity |]. split; reflexivity. }
  rewrite start_patrolling_eq. cbn [after mob with_log].
  destruct (db_patrolling (mob s)); cbn; rewrite ?Hloc.
  - repeat split; reflexivity.
  - rewrite union_empty_r_L. repeat split; reflexivity.
Qed.

(** The hunt tick of the drone that does not patrol, with nobody around. *)
Lemma hunt_tick_witness :
  do_hunt no_dice pursuer = Ok tt (after (do_hunt no_dice pursuer)) /\
  location (mob (after (do_hunt no_dice pursuer))) = Some 1 /\
  state_of (mob (after (do_hunt no_dice pursuer))) = state_of (mob pursuer).
Proof.
  pose proof (hunt_tick pursuer no_dice 1) as H.
  assert (location (mob pursuer) = Some 1) as Hloc by (vm_compute; reflexivity).
  assert (targets_in pursuer 1 = []) as Hnone by (vm_compute; reflexivity).
  specialize (H Hloc Hnone). cbv zeta in H. destruct H as [Hok H].
  assert (List.filter access_traverse (exits (world pursuer) 1)
          = [{| access_traverse := true; destination := 3 |}]) as Hex
    by (vm_compute; reflexivity).
  assert (first_exit_with_target pursuer 1 = None) as Hfirst by (vm_compute; reflexivity).
  assert (db_patrolling (mob pursuer) = false) as Hpat by (vm_compute; reflexivity).
  rewrite Hex, Hfirst, Hpat in H. destruct H as (Hl & Hs & _).
  split; [exact Hok |]. split; [exact Hl | exact Hs].
Defined.

(** ** The attack tick *)

(** C9: when the attack of the mob leaves its target at health zero or
    below and the name in [send_defeated_to] resolves to nothing, the tick
    returns (nothing is raised): the target and the room are told of the
    defeat, the error is logged, and nothing else happens; the world is
    the one the attack command left, so the target is where it was, and
    the mob's attributes and timers are untouched. *)
Theorem defeat_without_destination (execute_cmd : string -> World -> World)
    (s : St) (d : Dice) (room : dbref) (target : Obj) (verb : string) (h : float) :
  location (mob s) = Some room ->
  head (targets_in s room) = Some target ->
  attack_verbs !! (pick d mod length attack_verbs) = Some verb ->
  let w1 := execute_cmd (verb +:+ " " +:+ okey target) (world s) in
  from_option obj_health None (lookup_obj w1 (oid target)) = Some h ->
  (h <=? 0)%float = true ->
  search_object w1 (db_send_defeated_to (mob s)) = [] ->
  let s' := after (do_attack execute_cmd d s) in
  do_attack execute_cmd d s = Ok tt s' /\
  mob s' = mob s /\
  tickers s' = tickers s /\
  world s' = w1 /\
  exists ambient,
    log s' = (log s ++ ambient)
             ++ [Msg (oid target) (Plain (db_defeat_msg (mob s)));
                 MsgContents room
                   (Percent (db_defeat_msg_room (mob s)) (okey target)) [oid target];
                 LogErr ("Mob: send_defeated_to not found: "
                         +:+ db_send_defeated_to (mob s))].
Proof.
  intros Hloc Htarget Hverb w1 Hh Hle Hsearch. cbv zeta.
  destruct (irregular_msg_ok d s room Hloc) as [ambient Hirr].
  assert (do_attack execute_cmd d s =
          Ok tt (with_log
                   ((log s ++ ambient)
                    ++ [Msg (oid target) (Plain (db_defeat_msg (mob s)));
                        MsgContents room
                          (Percent (db_defeat_msg_room (mob s)) (okey target))
                          [oid target];
                        LogErr ("Mob: send_defeated_to not found: "
                                +:+ db_send_defeated_to (mob s))])
                   (with_world w1 s))) as Heq.
  { unfold do_attack. rewrite (bind_ok _ _ _ _ _ Hirr).
    unfold random_choice, modify_world, target_health, msg, msg_contents, log_err,
      emit, self_location, bind, get_mob, get_world, ret, raise.
    cbn [mob with_log with_world world log].
    rewrite Hloc, _find_target_eq.
    change (targets_in (with_log (log s ++ ambient) s) room) with (targets_in s room).
    rewrite Htarget.
    change ["burst"; "slice"; "slash"; "pierce"; "blast"]%string with attack_verbs.
    rewrite Hverb.
    cbn [mob with_log with_world world log]. fold w1.
    rewrite Hh, Hle.
    cbn [mob with_log with_world world log].
    rewrite Hloc.
    cbn [mob with_log with_world world log].
    rewrite Hsearch. unfold with_log, with_world. cbn [mob world tickers log].
    rewrite <- !app_assoc. reflexivity. }
  rewrite Heq. cbn [after mob with_log with_world world log tickers].
  split; [reflexivity |]. split; [reflexivity |]. split; [reflexivity |].
  split; [reflexivity |]. exists ambient. reflexivity.
Qed.

(** The drone knocks the intruder out; the recovery bay does not exist. *)
Lemma defeat_without_destination_witness :
  do_attack cmd_knocks_out no_dice switched_on
  = Ok tt (after (do_attack cmd_knocks_out no_dice switched_on)) /\
  mob (after (do_attack cmd_knocks_out no_dice switched_on)) = mob switched_on /\
  tickers (after (do_attack cmd_knocks_out no_dice switched_on)) = tickers switched_on /\
  world (after (do_attack cmd_knocks_out no_dice switched_on))
  = cmd_knocks_out "burst Char" (world switched_on).
Proof.
  destruct (defeat_without_destination cmd_knocks_out switched_on no_dice 1
              intruder "burst" 0%float) as (Hok & Hm & Ht & Hw & _).
  - vm_compute. reflexivity.
  - vm_compute. reflexivity.
  - reflexivity.
  - vm_compute. reflexivity.
  - reflexivity.
  - vm_compute. reflexivity.
  - split; [exact Hok |]. split; [exact Hm |]. split; [exact Ht | exact Hw].
Defined.

(** * Further properties of the code *)

Section ReachMore.

Variable execute_cmd : string -> World -> World.
Variable permitted : Call -> Prop.
Variables s0 s : St.
Hypothesis Hs : reachable execute_cmd permitted s0 s.

Lemma reach_at_init :
  permitted call_at_init -> reachable execute_cmd permitted s0 (after (at_init s)).
Proof. exact (reach_call execute_cmd permitted s0 s call_at_init Hs). Qed.

Lemma reach_at_new_arrival (c : dbref) :
  permitted (call_at_new_arrival c) ->
  reachable execute_cmd permitted s0 (after (at_new_arrival c s)).
Proof. exact (reach_call execute_cmd permitted s0 s (call_at_new_arrival c) Hs). Qed.

End ReachMore.

Lemma remembered_reachable (execute_cmd : string -> World -> World) (s0 s : St) :
  timers_remembered s0 -> reachable execute_cmd any_call s0 s -> timers_remembered s.
Proof.
  intros H0 Hr. induction Hr as [| s c Hr IH Hc | s w Hr IH].
  - exact H0.
  - apply remembered_run, IH.
  - exact IH.
Qed.

(** X1: a mob that starts with no timer never has two, whatever its paces
    and through reboots too: after any sequence of calls there is no timer
    or exactly one, and that one is the timer recorded in
    [db.last_ticker_interval] and [db.last_hook_key], the one the next
    [_set_ticker] cancels first. *)
Theorem one_timer_always (execute_cmd : string -> World -> World) (s0 s : St) :
  tickers s0 = ∅ ->
  reachable execute_cmd any_call s0 s ->
  tickers s = ∅ \/
  exists i h, tickers s = {[ (i, h) ]} /\
              db_last_ticker_interval (mob s) = Some i /\
              db_last_hook_key (mob s) = Some h.
Proof.
  intros H0 Hr.
  assert (timers_remembered s0) as Hrem0.
  { unfold timers_remembered. rewrite H0. apply empty_subseteq. }
  pose proof (remembered_reachable execute_cmd s0 s Hrem0 Hr) as Hrem.
  unfold timers_remembered, remembered_timer in Hrem.
  destruct (timer_set_subset _ _ Hrem) as [He | (i & h & Hih)]; [left; exact He |].
  right. exists i, h. split; [exact Hih |].
  assert ((i, h) ∈ tickers s) as Hin by (rewrite Hih; apply elem_of_singleton; reflexivity).
  apply Hrem in Hin.
  destruct (db_last_ticker_interval (mob s)) as [i' |],
    (db_last_hook_key (mob s)) as [h' |]; simpl in Hin;
    try (exfalso; exact (not_elem_of_empty _ Hin)).
  destruct (truthy_interval i' && truthy_key h'); simpl in Hin;
    [| exfalso; exact (not_elem_of_empty _ Hin)].
  apply elem_of_singleton in Hin. injection Hin as -> ->. split; reflexivity.
Qed.

(** The drone switched on, off, and rebooted. *)
Lemma one_timer_always_witness :
  tickers rebooted = ∅ \/
  exists i h, tickers rebooted = {[ (i, h) ]} /\
              db_last_ticker_interval (mob rebooted) = Some i /\
              db_last_hook_key (mob rebooted) = Some h.
Proof.
  apply (one_timer_always cmd_misses created rebooted).
  - reflexivity.
  - unfold rebooted, switched_off, switched_on.
    apply reach_at_init; [| exact I].
    apply reach_set_dead; [| exact I].
    apply reach_set_alive; [| exact I].
    apply reach_start.
Defined.

(** ** The flags stay within the capabilities *)

Lemma guards_start_patrolling : preserves capabilities_respected start_patrolling.
Proof.
  intros s (Hp & Hh & Ha). rewrite start_patrolling_eq. simpl after.
  destruct (db_patrolling (mob s)) eqn:E.
  - repeat split; simpl; intros H; try discriminate H. exact E.
  - repeat split; simpl; try assumption. intros H. rewrite E. apply Hp, H.
Qed.

Lemma guards_start_hunting : preserves capabilities_respected start_hunting.
Proof.
  intros s H. rewrite start_hunting_eq.
  destruct (db_hunting (mob s)) eqn:E; [| apply guards_start_patrolling, H].
  repeat split; simpl; intros H'; try discriminate H'. exact E.
Qed.

Lemma guards_start_attacking : preserves capabilities_respected start_attacking.
Proof.
  intros s H. rewrite start_attacking_eq.
  destruct (db_aggressive (mob s)) eqn:E; [| apply guards_start_hunting, H].
  repeat split; simpl; intros H'; try discriminate H'. exact E.
Qed.

Lemma guards_set_dead : preserves capabilities_respected set_dead.
Proof.
  intros s _. rewrite set_dead_eq. repeat split; simpl; intros H; discriminate H.
Qed.

Lemma guards_set_alive : preserves capabilities_respected set_alive.
Proof.
  intros s (Hp & Hh & Ha). rewrite set_alive_eq. cbv zeta.
  destruct (db_patrolling (mob s)) eqn:E.
  - rewrite start_patrolling_eq. simpl. rewrite E.
    repeat split; simpl; intros H; try discriminate H. exact E.
  - repeat split; simpl; try assumption. intros H; discriminate H.
Qed.

Lemma guards_at_init : preserves capabilities_respected at_init.
Proof.
  intros s _. unfold at_init, bind, modify. simpl.
  repeat split; simpl; intros H; try discriminate H.
  apply andb_true_iff in H. apply H.
Qed.

Lemma guards_reachable (execute_cmd : string -> World -> World) (s0 s : St) :
  capabilities_respected s0 -> reachable execute_cmd any_call s0 s ->
  capabilities_respected s.
Proof.
  intros H0 Hr. induction Hr as [| s c Hr IH Hc | s w Hr IH].
  - exact H0.
  - destruct (call_cases c) as [-> | Hn]; [apply guards_at_init, IH |].
    apply (preserves_run execute_cmd capabilities_respected); try exact Hn;
      try exact IH; try (intros ? ? Hx; exact Hx).
    + apply guards_start_patrolling.
    + apply guards_start_hunting.
    + apply guards_start_attacking.
    + apply guards_set_alive.
    + apply guards_set_dead.
  - exact IH.
Qed.

(** X2: the transition guards hold for good. A mob that starts with no
    behaviour flag is, after any sequence of calls and reboots, flagged as
    attacking only if it is aggressive, as hunting only if it may hunt, and
    as patrolling only if it may patrol. *)
Theorem flags_within_capabilities (execute_cmd : string -> World -> World)
    (s0 s : St) :
  state_of (mob s0) = Dormant ->
  reachable execute_cmd any_call s0 s ->
  (ndb_is_attacking (mob s) = true -> db_aggressive (mob s) = true) /\
  (ndb_is_hunting (mob s) = true -> db_hunting (mob s) = true) /\
  (ndb_is_patrolling (mob s) = true -> db_patrolling (mob s) = true) /\
  (db_aggressive (mob s) = false -> state_of (mob s) <> Attacking) /\
  (db_hunting (mob s) = false -> state_of (mob s) <> Hunting).
Proof.
  intros Hd Hr.
  assert (capabilities_respected s0) as H0.
  { revert Hd. unfold capabilities_respected, state_of.
    destruct (ndb_is_attacking (mob s0)), (ndb_is_hunting (mob s0)),
      (ndb_is_patrolling (mob s0)); try discriminate.
    intros _. repeat split; intros H; discriminate H. }
  destruct (guards_reachable execute_cmd s0 s H0 Hr) as (Hp & Hh & Ha).
  split; [exact Ha |]. split; [exact Hh |]. split; [exact Hp |].
  unfold state_of. split.
  - intros Hna. destruct (ndb_is_attacking (mob s)).
    + rewrite Ha in Hna by reflexivity. discriminate Hna.
    + destruct (ndb_is_hunting (mob s)), (ndb_is_patrolling (mob s)); discriminate.
  - intros Hnh. destruct (ndb_is_attacking (mob s)); [discriminate |].
    destruct (ndb_is_hunting (mob s)).
    + rewrite Hh in Hnh by reflexivity. discriminate Hnh.
    + destruct (ndb_is_patrolling (mob s)); discriminate.
Qed.

(** The drone that hunts but does not patrol, after its visitor has left. *)
Lemma flags_within_capabilities_witness :
  (ndb_is_attacking (mob pursuer) = true -> db_aggressive (mob pursuer) = true) /\
  (ndb_is_hunting (mob pursuer) = true -> db_hunting (mob pursuer) = true) /\
  (ndb_is_patrolling (mob pursuer) = true -> db_patrolling (mob pursuer) = true) /\
  (db_aggressive (mob pursuer) = false -> state_of (mob pursuer) <> Attacking) /\
  (db_hunting (mob pursuer) = false -> state_of (mob pursuer) <> Hunting).
Proof.
  apply (flags_within_capabilities (fun _ w => w) pursuer_created pursuer).
  - reflexivity.
  - unfold pursuer.
    apply (reach_call _ _ _ _ (call_do_attack no_dice)); [| exact I].
    apply reach_at_new_arrival; [| exact I].
    apply reach_set_alive; [| exact I].
    apply reach_start.
Defined.

(** ** Finding a target *)

Lemma filter_filter_andb {A : Type} (f g : A -> bool) (l : list A) :
  List.filter g (List.filter f l) = List.filter (fun x => f x && g x) l.
Proof.
  induction l as [| x l IH]; [reflexivity |]. simpl.
  destruct (f x); simpl; [destruct (g x) |]; rewrite IH; reflexivity.
Qed.

Lemma head_filter_first {A : Type} (f : A -> bool) (l : list A) :
  match head (List.filter f l) with
  | Some x =>
      f x = true /\
      exists before rest,
        l = before ++ x :: rest /\ Forall (fun y => f y = false) before
  | None => Forall (fun y => f y = false) l
  end.
Proof.
  induction l as [| y l IH]; simpl; [constructor |].
  destruct (f y) eqn:E; simpl.
  - split; [exact E |]. exists [], l. split; [reflexivity | constructor].
  - destruct (head (List.filter f l)) as [x |].
    + destruct IH as (Hx & before & rest & -> & Hb). split; [exact Hx |].
      exists (y :: before), rest. split; [reflexivity |].
      constructor; assumption.
    + constructor; assumption.
Qed.

Lemma targets_in_seen (s : St) (room : dbref) :
  targets_in s room = List.filter (seen_as_target s room) (objects (world s)).
Proof. unfold targets_in, contents_get. apply filter_filter_andb. Qed.

(** X3: [_find_target] needs a room (with no location it raises) and
    changes nothing. What it returns is the first object of the world, in
    order, that stands in that room, is not the mob itself, is a character
    and is no superuser; it returns nothing exactly when the room holds no
    such object. *)
Theorem find_target_first (loc : option dbref) (s : St) :
  match loc with
  | None => _find_target loc s = Raise AttributeError s
  | Some room =>
      exists found, _find_target loc s = Ok found s /\
        match found with
        | Some target =>
            obj_location target = Some room /\
            oid target <> mob_id (mob s) /\
            has_account target = true /\
            is_superuser target = false /\
            exists before rest,
              objects (world s) = before ++ target :: rest /\
              Forall (fun o => seen_as_target s room o = false) before
        | None =>
            Forall (fun o => seen_as_target s room o = false) (objects (world s))
        end
  end.
Proof.
  destruct loc as [room |]; [| reflexivity].
  exists (head (targets_in s room)). split; [apply _find_target_eq |].
  rewrite targets_in_seen.
  pose proof (head_filter_first (seen_as_target s room) (objects (world s))) as H.
  destruct (head _) as [target |]; [| exact H].
  destruct H as (Hseen & Hfirst).
  unfold seen_as_target, valid_target in Hseen.
  apply andb_true_iff in Hseen as [Hseen Hvalid].
  apply andb_true_iff in Hseen as [Hroom Hself].
  apply andb_true_iff in Hvalid as [Hacc Hsuper].
  apply bool_decide_eq_true in Hroom.
  apply negb_true_iff in Hself, Hsuper. apply Nat.eqb_neq in Hself.
  repeat split; assumption.
Qed.

(** ** The patrol and hunt ticks *)

(** The target a patrol or hunt tick acts on: a mob that is not aggressive
    does not look. *)
Lemma aggressive_target_eq (s : St) (room : dbref) :
  location (mob s) = Some room ->
  aggressive_target s =
  Ok (if db_aggressive (mob s) then head (targets_in s room) else None) s.
Proof.
  intros Hloc. unfold aggressive_target, bind, get_mob.
  destruct (db_aggressive (mob s)); [| reflexivity].
  rewrite Hloc. apply _find_target_eq.
Qed.

Lemma traversable_exits_eq (s : St) (room : dbref) :
  location (mob s) = Some room ->
  traversable_exits s = Ok (List.filter access_traverse (exits (world s) room)) s.
Proof.
  intros Hloc. unfold traversable_exits, self_location, bind, get_mob, get_world, ret.
  rewrite Hloc. reflexivity.
Qed.

Lemma do_patrol_eq (d : Dice) (s : St) (room : dbref) (ambient : list Event) :
  location (mob s) = Some room ->
  irregular_msg d s = Ok tt (with_log (log s ++ ambient) s) ->
  do_patrol d s =
  match (if db_aggressive (mob s) then head (targets_in s room) else None) with
  | Some _ => start_attacking (with_log (log s ++ ambient) s)
  | None =>
      match List.filter access_traverse (exits (world s) room) with
      | e :: rest =>
          bind (random_choice (pick d) (e :: rest))
            (fun exit => move_to (destination exit)) (with_log (log s ++ ambient) s)
      | [] => move_to (home (mob s)) (with_log (log s ++ ambient) s)
      end
  end.
Proof.
  intros Hloc Hirr. unfold do_patrol. rewrite (bind_ok _ _ _ _ _ Hirr).
  rewrite (bind_ok _ _ _ _ _ (aggressive_target_eq (with_log (log s ++ ambient) s) room Hloc)).
  change (targets_in (with_log (log s ++ ambient) s) room) with (targets_in s room).
  change (db_aggressive (mob (with_log (log s ++ ambient) s)))
    with (db_aggressive (mob s)).
  destruct (if db_aggressive (mob s) then head (targets_in s room) else None);
    [reflexivity |].
  rewrite (bind_ok _ _ _ _ _ (traversable_exits_eq (with_log (log s ++ ambient) s) room Hloc)).
  change (world (with_log (log s ++ ambient) s)) with (world s).
  destruct (List.filter access_traverse (exits (world s) room)); reflexivity.
Qed.

Lemma do_hunt_general_eq (d : Dice) (s : St) (room : dbref) (ambient : list Event) :
  location (mob s) = Some room ->
  irregular_msg d s = Ok tt (with_log (log s ++ ambient) s) ->
  do_hunt d s =
  match (if db_aggressive (mob s) then head (targets_in s room) else None) with
  | Some _ => start_attacking (with_log (log s ++ ambient) s)
  | None =>
      match List.filter access_traverse (exits (world s) room) with
      | e :: rest => hunt_exits (e :: rest) (with_log (log s ++ ambient) s)
      | [] => move_to (home (mob s)) (with_log (log s ++ ambient) s)
      end
  end.
Proof.
  intros Hloc Hirr. unfold do_hunt. rewrite (bind_ok _ _ _ _ _ Hirr).
  rewrite (bind_ok _ _ _ _ _ (aggressive_target_eq (with_log (log s ++ ambient) s) room Hloc)).
  change (targets_in (with_log (log s ++ ambient) s) room) with (targets_in s room).
  change (db_aggressive (mob (with_log (log s ++ ambient) s)))
    with (db_aggressive (mob s)).
  destruct (if db_aggressive (mob s) then head (targets_in s room) else None);
    [reflexivity |].
  rewrite (bind_ok _ _ _ _ _ (traversable_exits_eq (with_log (log s ++ ambient) s) room Hloc)).
  change (world (with_log (log s ++ ambient) s)) with (world s).
  destruct (List.filter access_traverse (exits (world s) room)); reflexivity.
Qed.

(** X4: a patrol tick of a mob that stands in a room and has no target to
    turn on (it is not aggressive, or the room holds no valid target)
    returns and only moves the mob: flags, health, timers and the world stay
    as they are. With no traversable exit the mob goes home; otherwise it
    goes through the exit drawn among the traversable exits of the room,
    never through an exit it may not traverse. *)
Theorem patrol_moves (d : Dice) (s : St) (room : dbref) :
  location (mob s) = Some room ->
  db_aggressive (mob s) = false \/ targets_in s room = [] ->
  let s' := after (do_patrol d s) in
  let traversable := List.filter access_traverse (exits (world s) room) in
  do_patrol d s = Ok tt s' /\
  world s' = world s /\ tickers s' = tickers s /\
  state_of (mob s') = state_of (mob s) /\ db_health (mob s') = db_health (mob s) /\
  match traversable !! (pick d mod length traversable) with
  | Some exit =>
      location (mob s') = Some (destination exit) /\
      In exit (exits (world s) room) /\ access_traverse exit = true
  | None => traversable = [] /\ location (mob s') = Some (home (mob s))
  end.
Proof.
  intros Hloc Hnone. cbv zeta.
  destruct (irregular_msg_ok d s room Hloc) as [ambient Hirr].
  rewrite (do_patrol_eq d s room ambient Hloc Hirr).
  assert ((if db_aggressive (mob s) then head (targets_in s room) else None) = None)
    as ->.
  { destruct Hnone as [-> | ->]; [reflexivity |].
    destruct (db_aggressive (mob s)); reflexivity. }
  destruct (List.filter access_traverse (exits (world s) room)) as [| e rest] eqn:Ef.
  { repeat split; reflexivity. }
  destruct (random_choice_ok (pick d) e rest (with_log (log s ++ ambient) s))
    as (exit & Hlook & Hchoice).
  rewrite (bind_ok _ _ _ _ _ Hchoice), Hlook.
  assert (In exit (e :: rest)) as Hin.
  { apply list_elem_of_In. eapply list_elem_of_lookup_2. exact Hlook. }
  rewrite <- Ef in Hin. apply filter_In in Hin.
  repeat split; try reflexivity; apply Hin.
Qed.

(** The drone, once nobody is in the arena, leaves through its one exit. *)
Lemma patrol_moves_witness :
  do_patrol no_dice (with_world empty_arena switched_on)
  = Ok tt (after (do_patrol no_dice (with_world empty_arena switched_on))) /\
  location (mob (after (do_patrol no_dice (with_world empty_arena switched_on))))
  = Some 3.
Proof.
  pose proof (patrol_moves no_dice (with_world empty_arena switched_on) 1) as H.
  assert (location (mob (with_world empty_arena switched_on)) = Some 1) as Hloc
    by (vm_compute; reflexivity).
  assert (targets_in (with_world empty_arena switched_on) 1 = []) as Hnone
    by (vm_compute; reflexivity).
  specialize (H Hloc (or_intror Hnone)). cbv zeta in H.
  destruct H as (Hok & _ & _ & _ & _ & Hmove).
  assert (List.filter access_traverse (exits (world (with_world empty_arena switched_on)) 1)
          = [{| access_traverse := true; destination := 3 |}]) as Hex
    by (vm_compute; reflexivity).
  rewrite Hex in Hmove. simpl in Hmove.
  split; [exact Hok | apply Hmove].
Defined.

Lemma start_attacking_timer (s : St) :
  db_aggressive (mob s) = true -> timers_remembered s ->
  tickers (after (start_attacking s))
  = timer_set (requested_timer (Some (db_aggressive_pace (mob s)))
                 (Some "do_attack"%string) false).
Proof.
  intros Ha Hr. rewrite start_attacking_eq, Ha.
  apply (set_ticker_tickers _ _ _ s Hr).
Qed.

(** X5: a patrol tick and a hunt tick of an aggressive mob with a valid
    target in its room do the same thing: the mob does not move, it starts
    attacking; the attack timer replaces whatever timer there was, and
    health and world are untouched. *)
Theorem target_at_hand (d : Dice) (s : St) (room : dbref) :
  location (mob s) = Some room ->
  db_aggressive (mob s) = true ->
  targets_in s room <> [] ->
  timers_remembered s ->
  let attack_timer :=
    timer_set (requested_timer (Some (db_aggressive_pace (mob s)))
                 (Some "do_attack"%string) false) in
  (forall s', s' = after (do_patrol d s) \/ s' = after (do_hunt d s) ->
     state_of (mob s') = Attacking /\
     location (mob s') = Some room /\
     tickers s' = attack_timer /\
     db_health (mob s') = db_health (mob s) /\
     world s' = world s) /\
  do_patrol d s = Ok tt (after (do_patrol d s)) /\
  do_hunt d s = Ok tt (after (do_hunt d s)) /\
  do_hunt d s = do_patrol d s.
Proof.
  intros Hloc Ha Hsome Hr. cbv zeta.
  destruct (irregular_msg_ok d s room Hloc) as [ambient Hirr].
  rewrite (do_patrol_eq d s room ambient Hloc Hirr),
    (do_hunt_general_eq d s room ambient Hloc Hirr), Ha.
  destruct (targets_in s room) as [| target others]; [contradiction |]. cbn [head].
  set (sa := with_log (log s ++ ambient) s).
  assert (db_aggressive (mob sa) = true) as Ha' by exact Ha.
  destruct (start_attacking_aggressive sa Ha') as (Hok & Hat & Hhe & _ & Hlo).
  split; [| split; [exact Hok | split; [exact Hok | reflexivity]]].
  intros s' Hs'. assert (s' = after (start_attacking sa)) as -> by tauto.
  split; [unfold state_of; rewrite Hat; reflexivity |].
  split; [rewrite Hlo; exact Hloc |].
  split; [apply (start_attacking_timer sa Ha'); exact Hr |].
  split; [exact Hhe |].
  rewrite start_attacking_eq, Ha'. reflexivity.
Qed.

Lemma switched_on_remembered : timers_remembered switched_on.
Proof.
  unfold switched_on. apply remembered_set_alive.
  unfold timers_remembered. apply empty_subseteq.
Qed.

(** The drone on patrol with the intruder in its room. *)
Lemma target_at_hand_witness :
  state_of (mob (after (do_patrol no_dice switched_on))) = Attacking /\
  location (mob (after (do_patrol no_dice switched_on))) = Some 1 /\
  do_hunt no_dice switched_on = do_patrol no_dice switched_on.
Proof.
  destruct (target_at_hand no_dice switched_on 1) as (Hall & _ & _ & Hsame).
  - vm_compute. reflexivity.
  - reflexivity.
  - vm_compute. discriminate.
  - exact switched_on_remembered.
  - destruct (Hall (after (do_patrol no_dice switched_on)) (or_introl eq_refl))
      as (Hst & Hl & _).
    split; [exact Hst |]. split; [exact Hl | exact Hsame].
Defined.

(** X6: a patrol tick and a hunt tick return exactly when the mob has a
    location; without one they raise before anything has changed. *)
Theorem ticks_need_a_location (d : Dice) (s : St) :
  (do_patrol d s = Ok tt (after (do_patrol d s)) <-> location (mob s) <> None) /\
  (do_hunt d s = Ok tt (after (do_hunt d s)) <-> location (mob s) <> None) /\
  (location (mob s) = None ->
   do_patrol d s = Raise AttributeError s /\ do_hunt d s = Raise AttributeError s).
Proof.
  assert (forall room, location (mob s) = Some room ->
            do_patrol d s = Ok tt (after (do_patrol d s)) /\
            do_hunt d s = Ok tt (after (do_hunt d s))) as Hret.
  { intros room Hloc.
    destruct (irregular_msg_ok d s room Hloc) as [ambient Hirr].
    rewrite (do_patrol_eq d s room ambient Hloc Hirr),
      (do_hunt_general_eq d s room ambient Hloc Hirr).
    destruct (if db_aggressive (mob s) then head (targets_in s room) else None).
    { split; apply start_attacking_ok. }
    destruct (List.filter access_traverse (exits (world s) room)) as [| e rest].
    { split; reflexivity. }
    split.
    - destruct (random_choice_ok (pick d) e rest (with_log (log s ++ ambient) s))
        as (exit & _ & Hchoice).
      rewrite (bind_ok _ _ _ _ _ Hchoice). reflexivity.
    - rewrite hunt_exits_eq. destruct (List.find _ _);
        [reflexivity | apply start_patrolling_ok]. }
  destruct (location (mob s)) as [room |] eqn:Hloc.
  - destruct (Hret room eq_refl) as [Hp Hh].
    split; [split; [discriminate | intros _; exact Hp] |].
    split; [split; [discriminate | intros _; exact Hh] |]. discriminate.
  - destruct (tick_without_location cmd_misses d s Hloc) as (Hp & Hh & _).
    split; [rewrite Hp; split; [discriminate | intros H; contradiction H; reflexivity] |].
    split; [rewrite Hh; split; [discriminate | intros H; contradiction H; reflexivity] |].
    intros _. split; assumption.
Qed.

(** ** Arrivals *)

(** X7: [at_new_arrival] does not look at who arrives. It does nothing at
    all for a mob that is not aggressive or is attacking already; any other
    mob starts attacking on the spot, with the attack timer in place of its
    timer and everything else as it was. *)
Theorem arrival (new_character : dbref) (s : St) :
  timers_remembered s ->
  let s' := after (at_new_arrival new_character s) in
  at_new_arrival new_character s = Ok tt s' /\
  if db_aggressive (mob s) && negb (ndb_is_attacking (mob s)) then
    state_of (mob s') = Attacking /\
    tickers s' = timer_set (requested_timer (Some (db_aggressive_pace (mob s)))
                              (Some "do_attack"%string) false) /\
    db_health (mob s') = db_health (mob s) /\
    db_is_dead (mob s') = db_is_dead (mob s) /\
    location (mob s') = location (mob s) /\
    world s' = world s
  else s' = s.
Proof.
  intros Hr. cbv zeta. unfold at_new_arrival, bind, get_mob.
  destruct (db_aggressive (mob s)) eqn:Ha; [| split; reflexivity].
  destruct (ndb_is_attacking (mob s)); [split; reflexivity |]. cbn [andb negb].
  destruct (start_attacking_aggressive s Ha) as (Hok & Hat & Hhe & Hde & Hlo).
  split; [exact Hok |].
  split; [unfold state_of; rewrite Hat; reflexivity |].
  split; [apply start_attacking_timer; assumption |].
  split; [exact Hhe |]. split; [exact Hde |]. split; [exact Hlo |].
  rewrite start_attacking_eq, Ha. reflexivity.
Qed.

(** Somebody walks in on the patrolling drone. *)
Lemma arrival_witness :
  at_new_arrival 7 switched_on = Ok tt (after (at_new_arrival 7 switched_on)) /\
  state_of (mob (after (at_new_arrival 7 switched_on))) = Attacking.
Proof.
  destruct (arrival 7 switched_on switched_on_remembered) as [Hok Hrest].
  assert (db_aggressive (mob switched_on) && negb (ndb_is_attacking (mob switched_on))
          = true) as Hc by (vm_compute; reflexivity).
  rewrite Hc in Hrest. split; [exact Hok | apply Hrest].
Defined.

(** ** The attack tick *)

Lemma do_attack_eq (execute_cmd : string -> World -> World) (d : Dice) (s : St)
    (room : dbref) (ambient : list Event) :
  location (mob s) = Some room ->
  irregular_msg d s = Ok tt (with_log (log s ++ ambient) s) ->
  targets_in s room = [] ->
  do_attack execute_cmd d s = start_hunting (with_log (log s ++ ambient) s).
Proof.
  intros Hloc Hirr Hnone. unfold do_attack. rewrite (bind_ok _ _ _ _ _ Hirr).
  unfold bind at 1. unfold get_mob at 1. cbn [mob with_log].
  unfold bind at 1. rewrite Hloc, _find_target_eq.
  change (targets_in (with_log (log s ++ ambient) s) room) with (targets_in s room).
  rewrite Hnone. reflexivity.
Qed.

(** X8: an attack tick that finds no valid target in the room runs no
    command and returns; the mob falls back along its capabilities: to
    hunting if it may hunt, else to patrolling, with its health back at
    [full_health], if it may patrol, and else to idle, with no timer and
    its flags left as they were. The world is untouched. *)
Theorem attack_without_target (execute_cmd : string -> World -> World)
    (d : Dice) (s : St) (room : dbref) :
  location (mob s) = Some room ->
  targets_in s room = [] ->
  timers_remembered s ->
  let s' := after (do_attack execute_cmd d s) in
  do_attack execute_cmd d s = Ok tt s' /\
  world s' = world s /\ location (mob s') = Some room /\
  if db_hunting (mob s) then
    state_of (mob s') = Hunting /\ db_health (mob s') = db_health (mob s) /\
    tickers s' = timer_set (requested_timer (Some (db_hunting_pace (mob s)))
                              (Some "do_hunt"%string) false)
  else if db_patrolling (mob s) then
    state_of (mob s') = Patrolling /\ db_health (mob s') = db_full_health (mob s) /\
    tickers s' = timer_set (requested_timer (Some (db_patrolling_pace (mob s)))
                              (Some "do_patrol"%string) false)
  else
    state_of (mob s') = state_of (mob s) /\ db_health (mob s') = db_health (mob s) /\
    tickers s' = ∅.
Proof.
  intros Hloc Hnone Hr. cbv zeta.
  destruct (irregular_msg_ok d s room Hloc) as [ambient Hirr].
  rewrite (do_attack_eq execute_cmd d s room ambient Hloc Hirr Hnone).
  set (sa := with_log (log s ++ ambient) s).
  assert (timers_remembered sa) as Hra by exact Hr.
  split; [apply start_hunting_ok |].
  rewrite start_hunting_eq.
  change (db_hunting (mob sa)) with (db_hunting (mob s)).
  destruct (db_hunting (mob s)).
  { cbn [after]. cbv zeta.
    split; [reflexivity |]. split; [exact Hloc |].
    split; [reflexivity |]. split; [reflexivity |].
    apply (set_ticker_tickers _ _ _ sa Hra). }
  rewrite start_patrolling_eq.
  change (db_patrolling (mob sa)) with (db_patrolling (mob s)).
  destruct (db_patrolling (mob s)); cbn [after]; cbv zeta.
  - split; [reflexivity |]. split; [exact Hloc |].
    split; [reflexivity |]. split; [reflexivity |].
    apply (set_ticker_tickers _ _ _ sa Hra).
  - split; [reflexivity |]. split; [exact Hloc |].
    split; [reflexivity |]. split; [reflexivity |].
    rewrite (set_ticker_tickers _ _ _ sa Hra). reflexivity.
Qed.

Lemma pursuer_start_remembered :
  timers_remembered (after (at_new_arrival 7 (after (set_alive pursuer_created)))).
Proof.
  apply (remembered_run (fun _ w => w) (call_at_new_arrival 7)).
  apply remembered_set_alive.
  unfold timers_remembered. apply empty_subseteq.
Qed.

(** The drone that may hunt, attacking in an empty room. *)
Lemma attack_without_target_witness :
  state_of (mob pursuer) = Hunting /\ location (mob pursuer) = Some 1.
Proof.
  unfold pursuer.
  destruct (attack_without_target (fun _ w => w) no_dice
              (after (at_new_arrival 7 (after (set_alive pursuer_created)))) 1)
    as (_ & _ & Hl & Hrest).
  - vm_compute. reflexivity.
  - vm_compute. reflexivity.
  - exact pursuer_start_remembered.
  - assert (db_hunting (mob (after (at_new_arrival 7 (after (set_alive pursuer_created)))))
            = true) as Hh by (vm_compute; reflexivity).
    rewrite Hh in Hrest. split; [apply Hrest | exact Hl].
Defined.

(** The attack tick up to the point where the command has run. *)
Lemma do_attack_command_eq (execute_cmd : string -> World -> World) (d : Dice)
    (s : St) (room : dbref) (target : Obj) (verb : string) (ambient : list Event) :
  location (mob s) = Some room ->
  irregular_msg d s = Ok tt (with_log (log s ++ ambient) s) ->
  head (targets_in s room) = Some target ->
  attack_verbs !! (pick d mod length attack_verbs) = Some verb ->
  let w1 := execute_cmd (verb +:+ " " +:+ okey target) (world s) in
  let sw := with_world w1 (with_log (log s ++ ambient) s) in
  do_attack execute_cmd d s =
  match from_option obj_health None (lookup_obj w1 (oid target)) with
  | None => Raise TypeError sw
  | Some h =>
      if (h <=? 0)%float then
        match search_object w1 (db_send_defeated_to (mob s)) with
        | send_defeated_to :: _ =>
            obj_move_to (oid target) send_defeated_to
              (with_log
                 ((log s ++ ambient)
                  ++ [Msg (oid target) (Plain (db_defeat_msg (mob s)));
                      MsgContents room
                        (Percent (db_defeat_msg_room (mob s)) (okey target))
                        [oid target]]) sw)
        | [] =>
            Ok tt
              (with_log
                 ((log s ++ ambient)
                  ++ [Msg (oid target) (Plain (db_defeat_msg (mob s)));
                      MsgContents room
                        (Percent (db_defeat_msg_room (mob s)) (okey target))
                        [oid target];
                      LogErr ("Mob: send_defeated_to not found: "
                              +:+ db_send_defeated_to (mob s))]) sw)
        end
      else Ok tt sw
  end.
Proof.
  intros Hloc Hirr Htarget Hverb. cbv zeta.
  unfold do_attack. rewrite (bind_ok _ _ _ _ _ Hirr).
  unfold random_choice, modify_world, target_health, msg, msg_contents, log_err,
    emit, self_location, bind, get_mob, get_world, ret, raise.
  cbn [mob with_log with_world world log].
  rewrite Hloc, _find_target_eq.
  change (targets_in (with_log (log s ++ ambient) s) room) with (targets_in s room).
  rewrite Htarget.
  change ["burst"; "slice"; "slash"; "pierce"; "blast"]%string with attack_verbs.
  rewrite Hverb.
  cbn [mob with_log with_world world log].
  destruct (from_option obj_health None _) as [h |]; [| reflexivity].
  destruct (h <=? 0)%float; [| reflexivity].
  cbn [mob with_log with_world world log]. rewrite Hloc.
  cbn [mob with_log with_world world log].
  destruct (search_object _ _) as [| dest others].
  - unfold with_log, with_world. cbn [mob world tickers log].
    rewrite <- !app_assoc. reflexivity.
  - unfold obj_move_to, modify_world, with_log, with_world. cbn [mob world tickers log].
    rewrite <- !app_assoc. reflexivity.
Qed.

(** X9: an attack tick on a target that the attack command leaves with
    health above zero returns right after the command: the world is the one
    the command left, the mob and its timers are untouched and no defeat is
    announced. On a target that has no health to read, the tick raises
    (TypeError) at that point, after the command has taken effect. *)
Theorem attack_that_does_not_defeat (execute_cmd : string -> World -> World)
    (d : Dice) (s : St) (room : dbref) (target : Obj) (verb : string) :
  location (mob s) = Some room ->
  head (targets_in s room) = Some target ->
  attack_verbs !! (pick d mod length attack_verbs) = Some verb ->
  let w1 := execute_cmd (verb +:+ " " +:+ okey target) (world s) in
  exists ambient,
    irregular_msg d s = Ok tt (with_log (log s ++ ambient) s) /\
    let sw := with_world w1 (with_log (log s ++ ambient) s) in
    match from_option obj_health None (lookup_obj w1 (oid target)) with
    | None => do_attack execute_cmd d s = Raise TypeError sw
    | Some h =>
        (h <=? 0)%float = false -> do_attack execute_cmd d s = Ok tt sw
    end.
Proof.
  intros Hloc Htarget Hverb. cbv zeta.
  destruct (irregular_msg_ok d s room Hloc) as [ambient Hirr].
  exists ambient. split; [exact Hirr |].
  rewrite (do_attack_command_eq execute_cmd d s room target verb ambient
             Hloc Hirr Htarget Hverb). cbv zeta.
  destruct (from_option obj_health None _) as [h |]; [| reflexivity].
  intros ->. reflexivity.
Qed.

(** The drone attacks and misses: the intruder keeps health 20. *)
Lemma attack_that_does_not_defeat_witness :
  let w1 := cmd_misses ("burst" +:+ " " +:+ okey intruder) (world switched_on) in
  exists ambient,
    irregular_msg no_dice switched_on
    = Ok tt (with_log (log switched_on ++ ambient) switched_on) /\
    let sw := with_world w1 (with_log (log switched_on ++ ambient) switched_on) in
    match from_option obj_health None (lookup_obj w1 (oid intruder)) with
    | None => do_attack cmd_misses no_dice switched_on = Raise TypeError sw
    | Some h =>
        (h <=? 0)%float = false -> do_attack cmd_misses no_dice switched_on = Ok tt sw
    end.
Proof.
  refine (attack_that_does_not_defeat cmd_misses no_dice switched_on 1 intruder
            "burst" _ _ _).
  - vm_compute. reflexivity.
  - vm_compute. reflexivity.
  - reflexivity.
Defined.

Lemma lookup_relocated (w : World) (target dest t : dbref) :
  lookup_obj
    (with_objects
       (map (fun o => if (oid o =? target)%nat then obj_set_location (Some dest) o else o)
          (objects w)) w) t
  = (fun o => if (oid o =? target)%nat then obj_set_location (Some dest) o else o)
      <$> lookup_obj w t.
Proof.
  unfold lookup_obj. cbn [objects with_objects].
  induction (objects w) as [| o l IH]; [reflexivity |]. cbn [map List.find].
  assert (oid (if (oid o =? target)%nat then obj_set_location (Some dest) o else o)
          = oid o) as -> by (destruct (oid o =? target)%nat; reflexivity).
  destruct (oid o =? t)%nat; [reflexivity | exact IH].
Qed.

Lemma relocation_spares_others (l : list Obj) (target dest : dbref) (o : Obj) :
  oid o <> target ->
  In o (map (fun o => if (oid o =? target)%nat then obj_set_location (Some dest) o else o) l)
  <-> In o l.
Proof.
  intros Hne. induction l as [| x l IH]; [reflexivity |]. cbn [map In].
  rewrite IH. destruct (Nat.eqb_spec (oid x) target) as [Heq | Hneq]; [| reflexivity].
  split; (intros [Hx | Hin]; [| right; exact Hin]); exfalso; subst o.
  - apply Hne. exact Heq.
  - apply Hne. exact Heq.
Qed.

(** X10: when the attack leaves the target at health zero or below and
    [send_defeated_to] resolves, the tick returns having told the target
    and the room (the target left out) and having moved the target, and
    nothing but the target, to the first location found; no error is
    logged, and the mob and its timers are untouched. *)
Theorem defeat_with_destination (execute_cmd : string -> World -> World)
    (s : St) (d : Dice) (room : dbref) (target : Obj) (verb : string) (h : float)
    (dest : dbref) (others : list dbref) :
  location (mob s) = Some room ->
  head (targets_in s room) = Some target ->
  attack_verbs !! (pick d mod length attack_verbs) = Some verb ->
  let w1 := execute_cmd (verb +:+ " " +:+ okey target) (world s) in
  from_option obj_health None (lookup_obj w1 (oid target)) = Some h ->
  (h <=? 0)%float = true ->
  search_object w1 (db_send_defeated_to (mob s)) = dest :: others ->
  let s' := after (do_attack execute_cmd d s) in
  do_attack execute_cmd d s = Ok tt s' /\
  mob s' = mob s /\ tickers s' = tickers s /\
  (exists moved,
     lookup_obj (world s') (oid target) = Some moved /\
     obj_location moved = Some dest /\ obj_health moved = Some h) /\
  (forall o, oid o <> oid target -> In o (objects (world s')) <-> In o (objects w1)) /\
  exists ambient,
    log s' = (log s ++ ambient)
             ++ [Msg (oid target) (Plain (db_defeat_msg (mob s)));
                 MsgContents room
                   (Percent (db_defeat_msg_room (mob s)) (okey target)) [oid target]].
Proof.
  intros Hloc Htarget Hverb w1 Hh Hle Hsearch. cbv zeta.
  destruct (irregular_msg_ok d s room Hloc) as [ambient Hirr].
  rewrite (do_attack_command_eq execute_cmd d s room target verb ambient
             Hloc Hirr Htarget Hverb). cbv zeta. fold w1.
  rewrite Hh, Hle, Hsearch.
  unfold obj_move_to, modify_world.
  cbn [after mob with_log with_world world log tickers].
  split; [reflexivity |]. split; [reflexivity |]. split; [reflexivity |].
  split; [| split; [| exists ambient; reflexivity]].
  - rewrite lookup_relocated.
    destruct (lookup_obj w1 (oid target)) as [found |] eqn:Hf; [| discriminate Hh].
    assert (oid found = oid target) as Hid.
    { unfold lookup_obj in Hf. apply List.find_some in Hf as [_ Hf].
      apply Nat.eqb_eq, Hf. }
    eexists. split; [reflexivity |]. cbn [from_option] in Hh.
    rewrite Hid, Nat.eqb_refl. split; [reflexivity | exact Hh].
  - intros o Hne. apply relocation_spares_others, Hne.
Qed.

(** The drone knocks the intruder out; the recovery bay is room 9. *)
Lemma defeat_with_destination_witness :
  let s := with_world arena_with_bay switched_on in
  let w1 := cmd_knocks_out ("burst" +:+ " " +:+ okey intruder) (world s) in
  let s' := after (do_attack cmd_knocks_out no_dice s) in
  do_attack cmd_knocks_out no_dice s = Ok tt s' /\
  mob s' = mob s /\ tickers s' = tickers s /\
  (exists moved,
     lookup_obj (world s') (oid intruder) = Some moved /\
     obj_location moved = Some 9 /\ obj_health moved = Some 0%float) /\
  (forall o, oid o <> oid intruder -> In o (objects (world s')) <-> In o (objects w1)) /\
  exists ambient,
    log s' = (log s ++ ambient)
             ++ [Msg (oid intruder) (Plain (db_defeat_msg (mob s)));
                 MsgContents 1
                   (Percent (db_defeat_msg_room (mob s)) (okey intruder)) [oid intruder]].
Proof.
  refine (defeat_with_destination cmd_knocks_out (with_world arena_with_bay switched_on)
            no_dice 1 intruder "burst" 0%float 9 [] _ _ _ _ _ _).
  - vm_compute. reflexivity.
  - vm_compute. reflexivity.
  - reflexivity.
  - vm_compute. reflexivity.
  - reflexivity.
  - vm_compute. reflexivity.
Defined.

(** ** More on hits *)

(** A hit on a mob without health answers the attacker with the
    "ineffective" message and does nothing else. *)
Lemma hit_without_health (weapon : Weapon) (attacker : dbref) (damage : float)
    (s : St) :
  db_health (mob s) = None ->
  at_hit weapon attacker damage s
  = Ok tt (with_log
             (log s ++ [Msg attacker (Plain (db_weapon_ineffective_msg (mob s)))]) s).
Proof.
  intros Hh. unfold at_hit, bind, get_mob. rewrite Hh. reflexivity.
Qed.

(** X11: a hit on an immortal mob that is in good health sends no message
    at all, neither to the attacker nor to the room, and takes nothing off
    the health, whatever the weapon and the damage; all it can do is
    provoke an aggressive mob into attacking. *)
Theorem immortal_hit (weapon : Weapon) (attacker : dbref) (damage h : float)
    (s : St) :
  ndb_is_immortal (mob s) = true ->
  db_health (mob s) = Some h ->
  (h <=? 0)%float = false ->
  let s' := after (at_hit weapon attacker damage s) in
  at_hit weapon attacker damage s = Ok tt s' /\
  db_health (mob s') = Some h /\
  db_is_dead (mob s') = db_is_dead (mob s) /\
  location (mob s') = location (mob s) /\
  world s' = world s /\
  Forall ticker_event (new_events s s') /\
  (if db_aggressive (mob s) then state_of (mob s') = Attacking else s' = s).
Proof.
  intros Him Hh Hle. cbv zeta. unfold at_hit, bind, get_mob.
  rewrite Hh, Him. cbn [negb ret]. rewrite Hh, Hle.
  destruct (db_aggressive (mob s)) eqn:Ha; cbn [andb].
  2: { unfold new_events. rewrite drop_all. repeat split; try assumption; constructor. }
  destruct (ndb_is_attacking (mob s)) eqn:Eat; cbn [negb].
  { unfold new_events. rewrite drop_all.
    repeat split; try assumption; try constructor.
    unfold state_of. simpl. rewrite Eat. reflexivity. }
  rewrite start_attacking_eq, Ha. cbn [after]. cbv zeta.
  unfold new_events. cbn [log with_mob set_ticker_state].
  rewrite <- app_assoc, drop_app_length.
  repeat split; try assumption.
  apply Forall_app. split; [apply removal_events_ticker | apply install_events_ticker].
Qed.

(** An immortal drone, provoked by a useless hit. *)
Lemma immortal_hit_witness :
  let s := with_mob (set_ndb_is_immortal true (mob switched_on)) switched_on in
  let s' := after (at_hit plasma 7 30%float s) in
  at_hit plasma 7 30%float s = Ok tt s' /\
  db_health (mob s') = Some 25%float /\
  db_is_dead (mob s') = db_is_dead (mob s) /\
  location (mob s') = location (mob s) /\
  world s' = world s /\
  Forall ticker_event (new_events s s') /\
  (if db_aggressive (mob s) then state_of (mob s') = Attacking else s' = s).
Proof.
  refine (immortal_hit plasma 7 30%float 25%float
            (with_mob (set_ndb_is_immortal true (mob switched_on)) switched_on) _ _ _).
  - reflexivity.
  - vm_compute. reflexivity.
  - reflexivity.
Defined.

(** X12: [at_hit] fails only before it has done anything. It raises in just
    two situations, both on a mortal mob with health: an ordinary weapon
    against a damage resistance of zero (ZeroDivisionError), and a magic
    weapon against a mob that has no location (AttributeError); in both the
    state is left exactly as it was, and in every other situation it
    returns. *)
Theorem hit_fails_cleanly (weapon : Weapon) (attacker : dbref) (damage : float)
    (s : St) :
  let doomed :=
    match db_health (mob s) with
    | None => None
    | Some _ =>
        if ndb_is_immortal (mob s) then None
        else if db_magic weapon then
          match location (mob s) with
          | None => Some AttributeError
          | Some _ => None
          end
        else if (db_damage_resistance (mob s) =? 0)%float then Some ZeroDivisionError
        else None
    end in
  match doomed with
  | Some e => at_hit weapon attacker damage s = Raise e s
  | None => at_hit weapon attacker damage s
            = Ok tt (after (at_hit weapon attacker damage s))
  end.
Proof.
  cbv zeta.
  destruct (db_health (mob s)) as [h |] eqn:Hh.
  2: { rewrite hit_without_health by exact Hh. reflexivity. }
  destruct (ndb_is_immortal (mob s)) eqn:Him.
  { apply at_hit_immortal, Him. }
  destruct (db_magic weapon) eqn:Hm.
  - destruct (location (mob s)) as [room |] eqn:Hloc.
    + rewrite (at_hit_mortal_eq s weapon attacker damage h damage
                 (MsgContents room (Plain (db_hit_msg (mob s))) []) Him Hh)
        by (rewrite Hm; simpl; eauto).
      cbv zeta. destruct (_ <=? 0)%float; [apply set_dead_ok |].
      destruct (_ && _); [apply start_attacking_ok | reflexivity].
    + unfold at_hit, bind, get_mob, self_location. rewrite Hh, Him, Hm. cbn.
      rewrite Hloc. reflexivity.
  - destruct (db_damage_resistance (mob s) =? 0)%float eqn:Hdr.
    + unfold at_hit, bind, get_mob. rewrite Hh, Him, Hm. cbn [negb]. rewrite Hdr.
      reflexivity.
    + rewrite (at_hit_mortal_eq s weapon attacker damage h
                 (damage / db_damage_resistance (mob s))%float
                 (Msg attacker (Plain (db_weapon_ineffective_msg (mob s)))) Him Hh)
        by (rewrite Hm; simpl; auto).
      cbv zeta. destruct (_ <=? 0)%float; [apply set_dead_ok |].
      destruct (_ && _); [apply start_attacking_ok | reflexivity].
Qed.

(** ** Activation *)

(** X13: [set_alive] from any state returns with the mob alive, described
    as alive, at full health, as mortal or immortal as [db.immortal] says,
    and where it was, or at home if it was nowhere. A patrol-capable mob
    is patrolling afterwards, its old timer replaced by the patrol timer; a
    mob that does not patrol keeps its timers, its hunting and attacking
    flags and its log as they were, so a reboot timer left by [set_dead]
    stays registered. *)
Theorem activation (s : St) :
  let s' := after (set_alive s) in
  set_alive s = Ok tt s' /\
  db_is_dead (mob s') = false /\
  db_health (mob s') = db_full_health (mob s) /\
  ndb_is_immortal (mob s') = db_immortal (mob s) /\
  db_desc (mob s') = db_desc_alive (mob s) /\
  location (mob s') = Some (default (home (mob s)) (location (mob s))) /\
  world s' = world s /\
  if db_patrolling (mob s) then
    state_of (mob s') = Patrolling /\
    tickers s' = tickers s ∖ timer_set (remembered_timer (mob s))
                 ∪ timer_set (requested_timer (Some (db_patrolling_pace (mob s)))
                                (Some "do_patrol"%string) false)
  else
    tickers s' = tickers s /\ log s' = log s /\
    ndb_is_patrolling (mob s') = false /\
    ndb_is_hunting (mob s') = ndb_is_hunting (mob s) /\
    ndb_is_attacking (mob s') = ndb_is_attacking (mob s).
Proof.
  cbv zeta. split; [apply set_alive_ok |].
  rewrite set_alive_eq. cbv zeta.
  destruct (db_patrolling (mob s)) eqn:E.
  - rewrite start_patrolling_eq. cbn [mob with_mob]. simpl db_patrolling. rewrite E.
    simpl. repeat split; reflexivity.
  - simpl. repeat split; reflexivity.
Qed.

(** ** Reboots *)

(** X14: a reboot forgets that the mob was hunting or attacking but leaves
    its timer alone. For a live, patrol-capable mob that was attacking or
    hunting, [at_init] returns with the mob flagged as patrolling while the
    one registered timer is still the attack or hunt tick of before: the
    timer no longer goes with the state. *)
Theorem reboot_keeps_timer (execute_cmd : string -> World -> World) (s0 s : St) :
  paces_nonzero (mob s0) -> not_started s0 ->
  reachable execute_cmd no_reboot s0 s ->
  state_of (mob s) = Attacking \/ state_of (mob s) = Hunting ->
  db_patrolling (mob s) = true ->
  db_is_dead (mob s) = false ->
  let s' := after (at_init s) in
  at_init s = Ok tt s' /\
  state_of (mob s') = Patrolling /\
  tickers s' = {[ timer_of (mob s) ]} /\
  timer_of (mob s') <> timer_of (mob s).
Proof.
  intros Hp Hn Hr Hst Hpat Hdead. cbv zeta.
  destruct (timer_inv_reachable execute_cmd s0 s (not_started_inv s0 Hp Hn) Hr)
    as (_ & Hrem & Hk & _ & H4).
  assert (state_of (mob s) <> Dormant) as Hnd
    by (destruct Hst as [-> | ->]; discriminate).
  specialize (H4 Hpat Hnd).
  assert (tickers s = {[ timer_of (mob s) ]}) as Ht.
  { destruct (timer_set_subset _ _ Hrem) as [He | (i & h & Hih)]; [contradiction |].
    rewrite Hih. f_equal. apply Hk. rewrite Hih. apply elem_of_singleton. reflexivity. }
  unfold at_init, bind, modify. cbn [after with_mob mob tickers].
  split; [reflexivity |].
  assert (state_of
            (set_ndb_is_immortal (db_immortal (mob s) || db_is_dead (mob s))
               (set_ndb_is_hunting false
                  (set_ndb_is_attacking false
                     (set_ndb_is_patrolling (db_patrolling (mob s) && negb (db_is_dead (mob s)))
                        (mob s))))) = Patrolling) as Hnew.
  { unfold state_of. simpl. rewrite Hpat, Hdead. reflexivity. }
  simpl db_patrolling. simpl db_is_dead. simpl db_immortal.
  split; [exact Hnew |]. split; [exact Ht |].
  unfold timer_of. rewrite Hnew.
  destruct Hst as [-> | ->]; simpl; intros H; injection H as _ H; discriminate H.
Qed.

(** The drone, provoked and then rebooted. *)
Lemma reboot_keeps_timer_witness :
  let s := after (at_new_arrival 7 switched_on) in
  let s' := after (at_init s) in
  at_init s = Ok tt s' /\
  state_of (mob s') = Patrolling /\
  tickers s' = {[ timer_of (mob s) ]} /\
  timer_of (mob s') <> timer_of (mob s).
Proof.
  refine (reboot_keeps_timer cmd_misses created (after (at_new_arrival 7 switched_on))
            _ _ _ _ _ _).
  - repeat split; discriminate.
  - split; reflexivity.
  - unfold switched_on.
    apply reach_at_new_arrival; [| discriminate].
    apply reach_set_alive; [| discriminate].
    apply reach_start.
  - left. vm_compute. reflexivity.
  - reflexivity.
  - vm_compute. reflexivity.
Defined.

(** ** What touches the world *)

Lemma world_is_modify (w : World) (f : Mob -> Mob) : preserves (world_is w) (modify f).
Proof. intros s H. exact H. Qed.

Lemma world_is_emit (w : World) (e : Event) : preserves (world_is w) (emit e).
Proof. intros s H. exact H. Qed.

Lemma world_is__set_ticker (w : World) (interval : option Z) (hook_key : option string)
    (stop : bool) :
  preserves (world_is w) (_set_ticker interval hook_key stop).
Proof. intros s H. rewrite _set_ticker_eq. exact H. Qed.

#[export] Hint Resolve world_is_modify world_is_emit world_is__set_ticker : preserve.

Lemma world_is_start_patrolling (w : World) : preserves (world_is w) start_patrolling.
Proof. unfold start_patrolling, start_idle. preserve. Qed.

#[export] Hint Resolve world_is_start_patrolling : preserve.

Lemma world_is_start_hunting (w : World) : preserves (world_is w) start_hunting.
Proof. unfold start_hunting. preserve. Qed.

#[export] Hint Resolve world_is_start_hunting : preserve.

Lemma world_is_start_attacking (w : World) : preserves (world_is w) start_attacking.
Proof. unfold start_attacking. preserve. Qed.

Lemma world_is_set_alive (w : World) : preserves (world_is w) set_alive.
Proof. unfold set_alive, move_to. preserve. Qed.

Lemma world_is_set_dead (w : World) : preserves (world_is w) set_dead.
Proof. unfold set_dead. preserve. Qed.

Lemma world_is_at_init (w : World) : preserves (world_is w) at_init.
Proof. unfold at_init. preserve. Qed.

(** X15: the attack tick is the only call that changes anything outside
    the mob: a reboot, an activation, a deactivation, a patrol or hunt
    tick, a hit or an arrival leaves every other object, the exits and the
    name lookup exactly as they were, whether it returns or raises. *)
Theorem only_attacks_touch_the_world (execute_cmd : string -> World -> World)
    (c : Call) (s : St) :
  not_an_attack c -> world (after (run execute_cmd c s)) = world s.
Proof.
  intros Hc.
  assert (world_is (world s) s) as H0 by reflexivity.
  destruct c; simpl in Hc |- *; try contradiction.
  - apply world_is_at_init, H0.
  - apply world_is_set_alive, H0.
  - apply world_is_set_dead, H0.
  - apply (preserves_do_patrol (world_is (world s))); auto with preserve.
    apply world_is_start_attacking.
  - apply (preserves_do_hunt (world_is (world s))); auto with preserve.
    apply world_is_start_attacking.
  - apply (preserves_at_hit (world_is (world s))); auto with preserve.
    + apply world_is_start_attacking.
    + apply world_is_set_dead.
  - apply (preserves_at_new_arrival (world_is (world s))); auto with preserve.
    apply world_is_start_attacking.
Qed.

(** A fatal hit on the drone leaves the intruder and the arena alone. *)
Lemma only_attacks_touch_the_world_witness :
  world (after (run cmd_knocks_out (call_at_hit plasma 7 30%float) switched_on))
  = world switched_on.
Proof.
  apply (only_attacks_touch_the_world cmd_knocks_out (call_at_hit plasma 7 30%float)
           switched_on).
  exact I.
Defined.

(** ** The test of the repository *)

Lemma life_cycle (s : St) :
  timers_remembered s -> db_patrolling (mob s) = true ->
  let alive := after (set_alive s) in
  let dead := after (set_dead alive) in
  db_is_dead (mob alive) = false /\
  tickers alive
  = timer_set (requested_timer (Some (db_patrolling_pace (mob s))) (Some "do_patrol") false) /\
  db_is_dead (mob dead) = true /\
  tickers dead
  = timer_set (requested_timer (Some (db_death_pace (mob s))) (Some "set_alive") false) /\
  remembered_timer (mob dead)
  = requested_timer (Some (db_death_pace (mob s))) (Some "set_alive") false /\
  timers_remembered dead.
Proof.
  intros H0 Hp. cbv zeta.
  pose proof (remembered_set_alive s H0) as H1.
  pose proof (remembered_set_dead _ H1) as H2.
  assert (db_is_dead (mob (after (set_alive s))) = false
          /\ tickers (after (set_alive s))
             = timer_set (requested_timer (Some (db_patrolling_pace (mob s)))
                            (Some "do_patrol") false)
          /\ db_death_pace (mob (after (set_alive s))) = db_death_pace (mob s))
    as (Hd & Ht & Hpace).
  { rewrite set_alive_eq. cbv zeta. rewrite Hp, start_patrolling_eq.
    cbn [mob with_mob db_patrolling attrs set_location set_ndb_is_patrolling
           set_ndb_is_immortal set_db_desc set_db_is_dead set_db_health].
    rewrite Hp. cbv zeta. cbn [after].
    split; [reflexivity |]. split; [| reflexivity].
    cbn [tickers with_mob]. rewrite set_ticker_tickers.
    - reflexivity.
    - apply remembered_with_mob; [reflexivity | exact H0]. }
  split; [exact Hd |]. split; [exact Ht |].
  split; [rewrite set_dead_eq; reflexivity |].
  split; [| split; [| exact H2]].
  - rewrite set_dead_eq. cbn [after]. rewrite set_ticker_tickers.
    + rewrite Hpace. reflexivity.
    + apply remembered_with_mob; [reflexivity | exact H1].
  - rewrite set_dead_eq. cbn [after]. rewrite Hpace.
    apply remembered_after_request. reflexivity.
Qed.

(** X16: [test_mob] passes for every mob that has just been created,
    whatever its key, its location, its home and the world around it: the
    mob is dead; [set_alive] returns, the mob is not dead and its patrol
    timer runs; [set_dead] returns, the mob is dead again and only the
    reboot timer runs; and the final [_set_ticker(0, "foo", stop=True)]
    returns without looking the hook up, cancels the reboot timer and
    leaves no timer behind. *)
Theorem test_mob (id : dbref) (name : string) (loc : option dbref) (hm : dbref)
    (w : World) :
  let mobobj :=
    {| mob := at_object_creation id name loc hm; world := w; tickers := ∅; log := [] |} in
  let alive := after (set_alive mobobj) in
  let dead := after (set_dead alive) in
  let final := after (_set_ticker (Some 0%Z) (Some "foo"%string) true dead) in
  db_is_dead (mob mobobj) = true /\
  set_alive mobobj = Ok tt alive /\ db_is_dead (mob alive) = false /\
  tickers alive = {[ (6%Z, "do_patrol"%string) ]} /\
  set_dead alive = Ok tt dead /\ db_is_dead (mob dead) = true /\
  tickers dead = {[ (90%Z, "set_alive"%string) ]} /\
  _set_ticker (Some 0%Z) (Some "foo"%string) true dead = Ok tt final /\
  tickers final = ∅ /\
  new_events dead final = [TickerRemove 90 "set_alive"].
Proof.
  cbv zeta.
  set (mobobj := {| mob := at_object_creation id name loc hm; world := w;
                    tickers := ∅; log := [] |}).
  assert (timers_remembered mobobj) as H0 by apply empty_subseteq.
  destruct (life_cycle mobobj H0 eq_refl) as (Ha & Hta & Hd & Htd & Hr & H2).
  set (alive := after (set_alive mobobj)) in *.
  set (dead := after (set_dead alive)) in *.
  split; [reflexivity |]. split; [apply set_alive_ok |].
  split; [exact Ha |]. split; [exact Hta |].
  split; [apply set_dead_ok |]. split; [exact Hd |]. split; [exact Htd |].
  rewrite _set_ticker_eq. cbn [after]. split; [reflexivity |].
  split; [rewrite (set_ticker_tickers _ _ _ dead H2); reflexivity |].
  unfold new_events, set_ticker_state. cbn [log requested_timer install_events].
  rewrite app_nil_r, drop_app_length, Hr. reflexivity.
Qed.
